(** * The scheduler's announcer (scheduler/announcer/announcer.go)

    A shallow embedding of the announcer of a Dragonfly scheduler node and
    the properties of its registration, shutdown gate, training loop,
    training round and upload tasks.

    Modelling conventions.
    - Go integers are [Z] (or [N] for buffer lengths) with the conversions
      [int32] and [uint64] written out.
    - A Go [error] value is [option error]; [None] is [nil].
    - The manager client, the trainer client (and its stream), the storage
      component (and its read closers) and the context are collaborators
      outside the package.  Their behaviour is an arbitrary state machine
      [handle] over an arbitrary type [World]; every call the announcer makes
      is appended to a trace.
    - Sequential code lives in the state monad [M]; the bodies handed to
      goroutines are resumable programs [prog] so that the two upload tasks
      of a round can be interleaved by a schedule.
    - Unbounded [for] loops take fuel; a call that has not returned within
      the fuel (or the supplied schedule of a [select]) has outcome
      [Pending]. *)

From Stdlib Require Import List String ZArith NArith Lia Bool Permutation.
From Stdlib.Strings Require Import Byte.
Import ListNotations.

Local Open Scope string_scope.
Local Open Scope list_scope.
Local Open Scope Z_scope.

(** ** Errors *)

(** [io_EOF] is the sentinel [io.EOF]; [opaque] is any other error a
    collaborator produces; [wrapped] is the result of
    [fmt.Errorf("<stage>: %w", err)]. *)
Inductive error : Type :=
| io_EOF
| opaque (msg : string)
| wrapped (stage : string) (cause : error).

Fixpoint Error (e : error) : string :=
  match e with
  | io_EOF => "EOF"
  | opaque msg => msg
  | wrapped stage cause => (stage ++ ": " ++ Error cause)%string
  end.

(** [fmt.Errorf(stage ++ ": %w", err)] *)
Definition Errorf_w (stage : string) (err : error) : error := wrapped stage err.

(** [err == io.EOF] *)
Definition is_EOF (err : option error) : bool :=
  match err with
  | Some io_EOF => true
  | _ => false
  end.

(** [err != nil && err != io.EOF] *)
Definition is_failure (err : option error) : bool :=
  match err with
  | None => false
  | Some io_EOF => false
  | Some _ => true
  end.

(** ** Integer conversions *)

Definition int32 (z : Z) : Z := (z + 2 ^ 31) mod 2 ^ 32 - 2 ^ 31.
Definition uint64 (z : Z) : Z := z mod 2 ^ 64.

(** ** Configuration (the fields of [config.Config] the announcer reads) *)

Module config.
Record Config : Type := {
  Server_Host : string;
  Server_AdvertiseIP : string;       (* the text [AdvertiseIP.String()] yields *)
  Server_AdvertisePort : Z;          (* int *)
  Host_IDC : string;
  Host_Location : string;
  Manager_SchedulerClusterID : Z;    (* uint *)
  Manager_KeepAlive_Interval : Z;    (* time.Duration *)
  Trainer_Interval : Z;              (* time.Duration *)
  Trainer_UploadTimeout : Z          (* time.Duration *)
}.
End config.

(** ** Messages *)

Module managerv2.
Inductive SourceType : Type := SourceType_SCHEDULER_SOURCE.

Record UpdateSchedulerRequest : Type := {
  us_SourceType : SourceType;
  us_Hostname : string;
  us_Ip : string;
  us_Port : Z;                       (* int32 *)
  us_Idc : string;
  us_Location : string;
  us_SchedulerClusterId : Z          (* uint64 *)
}.

Record KeepAliveRequest : Type := {
  ka_SourceType : SourceType;
  ka_Hostname : string;
  ka_Ip : string;
  ka_ClusterId : Z                   (* uint64 *)
}.
End managerv2.

Module trainerv1.
(** The [oneof Request] of a [TrainRequest]: the variant is the dataset tag. *)
Inductive TrainRequest_Request : Type :=
| TrainRequest_TrainMlpRequest (Dataset : list byte)
| TrainRequest_TrainGnnRequest (Dataset : list byte).

Record TrainRequest : Type := {
  Hostname : string;
  Ip : string;
  ClusterId : Z;                     (* uint64 *)
  Request : TrainRequest_Request
}.

Definition Dataset (m : TrainRequest) : list byte :=
  match Request m with
  | TrainRequest_TrainMlpRequest d => d
  | TrainRequest_TrainGnnRequest d => d
  end.
End trainerv1.

(** ** The announcer *)

(** UploadBufferSize is the buffer size for upload. *)
Definition UploadBufferSize : N := 1024 * 1024.

(** Interface values are handles; a [chan struct{}] is an index into the
    channel store of the state.  The manager client and the storage are
    taken to be the non-nil values the scheduler passes to [New]; only the
    trainer client, which is set by an option, can be nil. *)
Definition managerclient_V2 : Type := nat.
Definition trainerclient_V1 : Type := nat.
Definition storage_Storage : Type := nat.
Definition chan : Type := nat.

Record announcer : Type := {
  config : config.Config;
  managerClient : managerclient_V2;
  trainerClient : option trainerclient_V1;   (* [None] is the nil interface *)
  storage : storage_Storage;
  done : chan
}.

(** Option is a functional option for configuring the announcer. *)
Definition Option : Type := announcer -> announcer.

(** WithTrainerClient sets the grpc client of trainer. *)
Definition WithTrainerClient (client : trainerclient_V1) : Option :=
  fun a =>
    {| config := config a;
       managerClient := managerClient a;
       trainerClient := Some client;
       storage := storage a;
       done := done a |}.

(** ** Calls to collaborators *)

(** The two datasets, which also name the read closer a task holds. *)
Inductive dataset : Type := Download | NetworkTopology.

Inductive call : Type :=
| UpdateScheduler (c : managerclient_V2) (req : managerv2.UpdateSchedulerRequest)
| Train (c : trainerclient_V1) (timeout : Z)  (* open the stream under the round's deadline *)
| Send (m : trainerv1.TrainRequest)
| CloseAndRecv
| Open (d : dataset) (s : storage_Storage)     (* [OpenDownload()], [OpenNetworkTopology()] *)
| Read (d : dataset) (len : N)                (* [readCloser.Read(buf)], [len(buf) = len] *)
| Close (d : dataset)                         (* [readCloser.Close()] *)
| cancel.                                     (* the [cancel] of [context.WithTimeout] *)

Abbreviation OpenDownload := (Open Download).
Abbreviation OpenNetworkTopology := (Open NetworkTopology).

(** What a call hands back.  [Read] hands back the bytes of [buf[:n]]
    together with [err]; every other call but [cancel] hands back its
    error (values the announcer discards are left out).  The collaborators
    are taken to honour their interfaces: a nil error of [Train] or of
    [OpenDownload]/[OpenNetworkTopology] comes with a usable stream or read
    closer, and [Read] returns [n <= len(buf)].  What the Go code does
    against a collaborator that breaks this (it panics) is outside this
    model. *)
Definition resp (c : call) : Type :=
  match c with
  | Read _ _ => (list byte * option error)%type
  | cancel => unit
  | _ => option error
  end.

(** The two goroutines of a round's errgroup, in the order of [eg.Go]. *)
Inductive task : Type := GoDownload | GoNetworkTopology.

Inductive event : Type :=
| EvCall (c : call)
| EvGoKeepAlive (c : managerclient_V2) (interval : Z)
                (req : managerv2.KeepAliveRequest) (stop : chan)
| EvGoExit (t : task) (r : option error)      (* a goroutine of the errgroup returned [r] *)
| EvInfo (msg : string)                       (* [logger.Info] *)
| EvError (e : error).                        (* [logger.Error] *)

(** ** Resumable programs (goroutine bodies) *)

Inductive prog (A : Type) : Type :=
| Ret (a : A)
| Diverge
| Call (c : call) (k : resp c -> prog A).

Arguments Ret {A} a.
Arguments Diverge {A}.
Arguments Call {A} c k.

Fixpoint pbind {A B : Type} (p : prog A) (f : A -> prog B) : prog B :=
  match p with
  | Ret a => f a
  | Diverge => Diverge
  | Call c k => Call c (fun r => pbind (k r) f)
  end.

Definition pcall (c : call) : prog (resp c) := Call c Ret.

Notation "x <~ p ;; q" := (pbind p (fun x => q))
  (at level 61, p at next level, right associativity).
Notation "' pat <~ p ;; q" := (pbind p (fun x => match x with pat => q end))
  (at level 61, pat pattern, p at next level, right associativity).

(** [defer cleanup] in a goroutine body that cannot panic: the cleanup runs
    when the body returns, and its own result is dropped. *)
Definition pdefer {A B : Type} (cleanup : prog B) (body : prog A) : prog A :=
  a <~ body ;; _ <~ cleanup ;; Ret a.

Section Upload.

(** Iterations granted to each [for] loop of an upload task. *)
Variable fuel : nat.

Fixpoint uploadDownloadToTrainer_loop (n : nat) (a : announcer)
  : prog (option error) :=
  match n with
  | O => Diverge
  | S n' =>
      '(buf_n, err) <~ pcall (Read Download UploadBufferSize) ;;
      if is_failure err then Ret err
      else
        serr <~ pcall (Send
          {| trainerv1.Hostname := config.Server_Host (config a);
             trainerv1.Ip := config.Server_AdvertiseIP (config a);
             trainerv1.ClusterId :=
               uint64 (config.Manager_SchedulerClusterID (config a));
             trainerv1.Request := trainerv1.TrainRequest_TrainMlpRequest buf_n |}) ;;
        match serr with
        | Some e => Ret (Some e)
        | None =>
            if is_EOF err then Ret None
            else uploadDownloadToTrainer_loop n' a
        end
  end.

(** uploadDownloadToTrainer uploads download information to trainer. *)
Definition uploadDownloadToTrainer (a : announcer) : prog (option error) :=
  err <~ pcall (OpenDownload (storage a)) ;;
  match err with
  | Some e => Ret (Some e)
  | None =>
      pdefer (pcall (Close Download))
             (uploadDownloadToTrainer_loop fuel a)
  end.

Fixpoint uploadNetworkTopologyToTrainer_loop (n : nat) (a : announcer)
  : prog (option error) :=
  match n with
  | O => Diverge
  | S n' =>
      '(buf_n, err) <~ pcall (Read NetworkTopology UploadBufferSize) ;;
      if is_failure err then Ret err
      else
        serr <~ pcall (Send
          {| trainerv1.Hostname := config.Server_Host (config a);
             trainerv1.Ip := config.Server_AdvertiseIP (config a);
             trainerv1.ClusterId :=
               uint64 (config.Manager_SchedulerClusterID (config a));
             trainerv1.Request := trainerv1.TrainRequest_TrainGnnRequest buf_n |}) ;;
        match serr with
        | Some e => Ret (Some e)
        | None =>
            if is_EOF err then Ret None
            else uploadNetworkTopologyToTrainer_loop n' a
        end
  end.

(** uploadNetworkTopologyToTrainer uploads network topology to trainer. *)
Definition uploadNetworkTopologyToTrainer (a : announcer) : prog (option error) :=
  err <~ pcall (OpenNetworkTopology (storage a)) ;;
  match err with
  | Some e => Ret (Some e)
  | None =>
      pdefer (pcall (Close NetworkTopology))
             (uploadNetworkTopologyToTrainer_loop fuel a)
  end.

(** The bodies of the two [eg.Go] closures of [train]. *)
Definition train_go_download (a : announcer) : prog (option error) :=
  err <~ uploadDownloadToTrainer a ;;
  match err with
  | Some e => Ret (Some (Errorf_w "upload download" e))
  | None => Ret None
  end.

Definition train_go_network_topology (a : announcer) : prog (option error) :=
  err <~ uploadNetworkTopologyToTrainer a ;;
  match err with
  | Some e => Ret (Some (Errorf_w "upload network topology" e))
  | None => Ret None
  end.

End Upload.

(** ** Collaborators and the state monad of sequential code *)

(** The collaborators behind the interfaces the announcer calls: any state
    machine answering each call. *)
Class Collaborators : Type := {
  World : Type;
  handle : forall c : call, World -> resp c * World
}.

Inductive outcome (A : Type) : Type :=
| Returned (a : A)
| Panicked (msg : string)
| Pending.

Arguments Returned {A} a.
Arguments Panicked {A} msg.
Arguments Pending {A}.

(** [chans] holds, for every channel made so far, whether it is closed. *)
Record state {C : Collaborators} : Type := {
  world : World;
  chans : list bool;
  trace : list event
}.

Definition M {C : Collaborators} (A : Type) : Type := state -> outcome A * state.

Fixpoint set_nth {A : Type} (i : nat) (x : A) (l : list A) : list A :=
  match l, i with
  | [], _ => []
  | _ :: t, O => x :: t
  | y :: t, S i' => y :: set_nth i' x t
  end.

Section Monad.

Context {C : Collaborators}.

Definition ret {A : Type} (a : A) : M A := fun st => (Returned a, st).

Definition bind {A B : Type} (m : M A) (f : A -> M B) : M B :=
  fun st =>
    match m st with
    | (Returned a, st') => f a st'
    | (Panicked msg, st') => (Panicked msg, st')
    | (Pending, st') => (Pending, st')
    end.

Definition panic {A : Type} (msg : string) : M A := fun st => (Panicked msg, st).

Definition pending {A : Type} : M A := fun st => (Pending, st).

Definition emit (ev : event) (st : state) : state :=
  {| world := world st; chans := chans st; trace := trace st ++ [ev] |}.

Definition log (ev : event) : M unit := fun st => (Returned tt, emit ev st).

(** A call to a collaborator: recorded, then answered by [handle]. *)
Definition call_ (c : call) : M (resp c) :=
  fun st =>
    let (r, w) := handle c (world st) in
    (Returned r,
     {| world := w; chans := chans st; trace := trace st ++ [EvCall c] |}).

(** [defer cleanup]: the cleanup runs when the body returns or panics. *)
Definition defer {A B : Type} (cleanup : M B) (body : M A) : M A :=
  fun st =>
    match body st with
    | (Returned a, st') =>
        match cleanup st' with
        | (Returned _, st'') => (Returned a, st'')
        | (Panicked msg, st'') => (Panicked msg, st'')
        | (Pending, st'') => (Pending, st'')
        end
    | (Panicked msg, st') =>
        match cleanup st' with
        | (Pending, st'') => (Pending, st'')
        | (_, st'') => (Panicked msg, st'')
        end
    | (Pending, st') => (Pending, st')
    end.

(** [make(chan struct{})] *)
Definition make_chan : M chan :=
  fun st =>
    (Returned (List.length (chans st)),
     {| world := world st; chans := chans st ++ [false]; trace := trace st |}).

(** [close(c)] *)
Definition close_chan (c : chan) : M unit :=
  fun st =>
    match nth_error (chans st) c with
    | Some false =>
        (Returned tt,
         {| world := world st; chans := set_nth c true (chans st);
            trace := trace st |})
    | Some true => (Panicked "close of closed channel", st)
    | None => (Panicked "close of nil channel", st)
    end.

(** Whether [<-c] can proceed on a channel nobody sends on: it is closed. *)
Definition is_closed (c : chan) (st : state) : bool :=
  match nth_error (chans st) c with
  | Some b => b
  | None => false
  end.

(** A program run without interruption. *)
Fixpoint exec {A : Type} (p : prog A) : M A :=
  match p with
  | Ret a => ret a
  | Diverge => pending
  | Call c k => bind (call_ c) (fun r => exec (k r))
  end.

End Monad.

Notation "x <- m ;; k" := (bind m (fun x => k))
  (at level 61, m at next level, right associativity).
Notation "m1 ;;; m2" := (bind m1 (fun _ => m2))
  (at level 61, right associativity).

(** ** errgroup

    [golang.org/x/sync/errgroup] with the zero [Group]: [Go] runs its
    function in a new goroutine, the first non-nil error returned by one of
    them is kept, and [Wait] blocks until all of them have returned and then
    returns the kept error.  A goroutine is a program together with how far
    it has got; a call to a collaborator is one step, so two sends on the
    shared stream never overlap. *)

Inductive goroutine : Type :=
| Running (p : prog (option error))
| Exited.

(** [errOnce.Do]: only the first non-nil error is kept. *)
Definition errOnce (kept r : option error) : option error :=
  match kept with
  | Some _ => kept
  | None => r
  end.

Definition pick (t : task) (gs : goroutine * goroutine) : goroutine :=
  match t with
  | GoDownload => fst gs
  | GoNetworkTopology => snd gs
  end.

Definition put (t : task) (g : goroutine) (gs : goroutine * goroutine)
  : goroutine * goroutine :=
  match t with
  | GoDownload => (g, snd gs)
  | GoNetworkTopology => (fst gs, g)
  end.

Definition stage (t : task) : string :=
  match t with
  | GoDownload => "upload download"
  | GoNetworkTopology => "upload network topology"
  end.

Section Errgroup.

Context {C : Collaborators}.

(** A goroutine run to its return once nothing else is scheduled. *)
Definition finish (t : task) (g : goroutine) (kept : option error)
  : M (option error) :=
  match g with
  | Exited => ret kept
  | Running p =>
      r <- exec p ;;
      log (EvGoExit t r) ;;;
      ret (errOnce kept r)
  end.

(** [eg.Go(f1); eg.Go(f2); eg.Wait()] on the pair of goroutines.  The
    schedule names the goroutine that takes the next step: one call to a
    collaborator, or its return.  A choice naming a goroutine that has
    exited is void.  [Wait] returns the kept error once both have exited. *)
Fixpoint errgroup_Wait (sched : list task) (gs : goroutine * goroutine)
         (kept : option error) {struct sched} : M (option error) :=
  match gs with
  | (Exited, Exited) => ret kept
  | _ =>
      match sched with
      | [] =>
          kept1 <- finish GoDownload (fst gs) kept ;;
          finish GoNetworkTopology (snd gs) kept1
      | t :: sched' =>
          match pick t gs with
          | Exited => errgroup_Wait sched' gs kept
          | Running (Ret r) =>
              log (EvGoExit t r) ;;;
              errgroup_Wait sched' (put t Exited gs) (errOnce kept r)
          | Running Diverge => pending
          | Running (Call c k) =>
              r <- call_ c ;;
              errgroup_Wait sched' (put t (Running (k r)) gs) kept
          end
      end
  end.

End Errgroup.

(** ** The announcer's methods *)

Inductive select_event : Type :=
| TickFires (sched : list task)  (* [<-tick.C] is taken; [sched] schedules the round *)
| StopCalled                     (* another goroutine calls [Stop] *)
| DoneChosen.                    (* [<-a.done] is offered to the select *)

Section Methods.

Context {C : Collaborators}.
Variable fuel : nat.

(** New returns a new Announcer interface. *)
Definition New (cfg : config.Config) (mgr : managerclient_V2)
           (sto : storage_Storage) (options : list Option)
  : M (option announcer * option error) :=
  ch <- make_chan ;;
  let a := fold_left (fun a opt => opt a) options
             {| config := cfg;
                managerClient := mgr;
                trainerClient := None;
                storage := sto;
                done := ch |} in
  (* Register to manager. *)
  err <- call_ (UpdateScheduler (managerClient a)
           {| managerv2.us_SourceType := managerv2.SourceType_SCHEDULER_SOURCE;
              managerv2.us_Hostname := config.Server_Host (config a);
              managerv2.us_Ip := config.Server_AdvertiseIP (config a);
              managerv2.us_Port := int32 (config.Server_AdvertisePort (config a));
              managerv2.us_Idc := config.Host_IDC (config a);
              managerv2.us_Location := config.Host_Location (config a);
              managerv2.us_SchedulerClusterId :=
                uint64 (config.Manager_SchedulerClusterID (config a)) |}) ;;
  match err with
  | Some e => ret (None, Some e)
  | None => ret (Some a, None)
  end.

(** Stop announcer server. *)
Definition Stop (a : announcer) : M (option error) :=
  close_chan (done a) ;;;
  ret None.

(** announceToManager starts the keepalive goroutine; what that goroutine
    does is the manager client's business. *)
Definition announceToManager (a : announcer) : M (option error) :=
  (* Start keepalive to manager. *)
  log (EvGoKeepAlive (managerClient a)
         (config.Manager_KeepAlive_Interval (config a))
         {| managerv2.ka_SourceType := managerv2.SourceType_SCHEDULER_SOURCE;
            managerv2.ka_Hostname := config.Server_Host (config a);
            managerv2.ka_Ip := config.Server_AdvertiseIP (config a);
            managerv2.ka_ClusterId :=
              uint64 (config.Manager_SchedulerClusterID (config a)) |}
         (done a)) ;;;
  ret None.

(** train uploads dataset to trainer and trigger training. *)
Definition train (a : announcer) (sched : list task) : M (option error) :=
  defer (call_ cancel)
    match trainerClient a with
    | None => panic "invalid memory address or nil pointer dereference"
    | Some client =>
        err <- call_ (Train client (config.Trainer_UploadTimeout (config a))) ;;
        match err with
        | Some e => ret (Some e)
        | None =>
            err <- errgroup_Wait sched
                     (Running (train_go_download fuel a),
                      Running (train_go_network_topology fuel a))
                     None ;;
            match err with
            | Some e => ret (Some e)
            | None =>
                err <- call_ CloseAndRecv ;;
                match err with
                | Some e => ret (Some e)
                | None => ret None
                end
            end
        end
    end.

(** The [for { select { ... } }] of [announceToTrainer], driven by what
    the select is offered. *)
Fixpoint announceToTrainer_loop (a : announcer) (evs : list select_event)
  : M (option error) :=
  match evs with
  | [] => pending
  | TickFires sched :: evs' =>
      err <- train a sched ;;
      match err with
      | Some e => log (EvError e)
      | None => ret tt
      end ;;;
      announceToTrainer_loop a evs'
  | StopCalled :: evs' =>
      Stop a ;;;
      announceToTrainer_loop a evs'
  | DoneChosen :: evs' =>
      fun st =>
        if is_closed (done a) st then ret None st
        else announceToTrainer_loop a evs' st
  end.

(** announceToTrainer announces dataset to trainer. *)
Definition announceToTrainer (a : announcer) (evs : list select_event)
  : M (option error) :=
  if config.Trainer_Interval (config a) <=? 0
  then panic "non-positive interval for NewTicker"
  else announceToTrainer_loop a evs.

(** Started announcer server. *)
Definition Serve (a : announcer) (evs : list select_event) : M (option error) :=
  log (EvInfo "announce scheduler to manager") ;;;
  err <- announceToManager a ;;
  match err with
  | Some e => ret (Some e)
  | None =>
      match trainerClient a with
      | Some _ =>
          log (EvInfo "announce scheduler to trainer") ;;;
          err <- announceToTrainer a evs ;;
          match err with
          | Some e => ret (Some e)
          | None => ret None
          end
      | None => ret None
      end
  end.

End Methods.

(** ** The two upload tasks as one program

    [uploadDownloadToTrainer] and [uploadNetworkTopologyToTrainer] differ in
    the dataset the storage opens and in the variant of the message;
    [upload] is their common shape (see [uploadDownloadToTrainer_upload] and
    [uploadNetworkTopologyToTrainer_upload]). *)

Definition chunk_request (d : dataset) (a : announcer) (buf_n : list byte)
  : trainerv1.TrainRequest :=
  {| trainerv1.Hostname := config.Server_Host (config a);
     trainerv1.Ip := config.Server_AdvertiseIP (config a);
     trainerv1.ClusterId := uint64 (config.Manager_SchedulerClusterID (config a));
     trainerv1.Request :=
       match d with
       | Download => trainerv1.TrainRequest_TrainMlpRequest buf_n
       | NetworkTopology => trainerv1.TrainRequest_TrainGnnRequest buf_n
       end |}.

Fixpoint upload_loop (d : dataset) (a : announcer) (n : nat) : prog (option error) :=
  match n with
  | O => Diverge
  | S n' =>
      '(buf_n, err) <~ pcall (Read d UploadBufferSize) ;;
      if is_failure err then Ret err
      else
        serr <~ pcall (Send (chunk_request d a buf_n)) ;;
        match serr with
        | Some e => Ret (Some e)
        | None => if is_EOF err then Ret None else upload_loop d a n'
        end
  end.

Definition upload (d : dataset) (fuel : nat) (a : announcer) : prog (option error) :=
  err <~ pcall (Open d (storage a)) ;;
  match err with
  | Some e => Ret (Some e)
  | None => pdefer (pcall (Close d)) (upload_loop d a fuel)
  end.

Definition dataset_of (t : task) : dataset :=
  match t with
  | GoDownload => Download
  | GoNetworkTopology => NetworkTopology
  end.

(** The common shape of the two [eg.Go] closures of [train]. *)
Definition train_go (t : task) (fuel : nat) (a : announcer) : prog (option error) :=
  err <~ upload (dataset_of t) fuel a ;;
  match err with
  | Some e => Ret (Some (Errorf_w (stage t) e))
  | None => Ret None
  end.

(** The pair of goroutines [train] hands to its errgroup. *)
Definition uploads (fuel : nat) (a : announcer) : goroutine * goroutine :=
  (Running (train_go GoDownload fuel a),
   Running (train_go GoNetworkTopology fuel a)).

Definition upload_task (d : dataset) : nat -> announcer -> prog (option error) :=
  match d with
  | Download => uploadDownloadToTrainer
  | NetworkTopology => uploadNetworkTopologyToTrainer
  end.

Definition upload_task_loop (d : dataset) : nat -> announcer -> prog (option error) :=
  match d with
  | Download => uploadDownloadToTrainer_loop
  | NetworkTopology => uploadNetworkTopologyToTrainer_loop
  end.

(** ** Reading a trace *)

(** The messages sent on the stream, in order. *)
Fixpoint sends (evs : list event) : list trainerv1.TrainRequest :=
  match evs with
  | [] => []
  | EvCall (Send m) :: evs' => m :: sends evs'
  | _ :: evs' => sends evs'
  end.

(** The goroutine returns of the errgroup, in order. *)
Fixpoint exits (evs : list event) : list (task * option error) :=
  match evs with
  | [] => []
  | EvGoExit t r :: evs' => (t, r) :: exits evs'
  | _ :: evs' => exits evs'
  end.

(** The goroutines of a pair that have not exited. *)
Definition running (gs : goroutine * goroutine) : list task :=
  match fst gs with Running _ => [GoDownload] | Exited => [] end ++
  match snd gs with Running _ => [GoNetworkTopology] | Exited => [] end.

(** The first non-nil error of a list of results. *)
Fixpoint first_error (rs : list (option error)) : option error :=
  match rs with
  | [] => None
  | Some e :: _ => Some e
  | None :: rs' => first_error rs'
  end.

Definition is_call (c : call) (ev : event) : bool :=
  match ev, c with
  | EvCall (Close d), Close d' =>
      match d, d' with
      | Download, Download | NetworkTopology, NetworkTopology => true
      | _, _ => false
      end
  | EvCall CloseAndRecv, CloseAndRecv => true
  | EvCall cancel, cancel => true
  | _, _ => false
  end.

Definition is_registration (ev : event) : bool :=
  match ev with
  | EvCall (UpdateScheduler _ _) => true
  | _ => false
  end.

(** Heartbeat or training activity: the keepalive goroutine and every call
    to the trainer or the storage. *)
Definition is_activity (ev : event) : bool :=
  match ev with
  | EvCall (UpdateScheduler _ _) => false
  | EvCall _ => true
  | EvGoKeepAlive _ _ _ _ => true
  | EvGoExit _ _ => true
  | EvInfo _ => false
  | EvError _ => false
  end.

Definition count (f : event -> bool) (evs : list event) : nat :=
  List.length (filter f evs).

(** ** Simulated collaborators

    Datasets are byte strings held by the storage.  A read closer either
    reports end-of-stream on a read of its own that yields no bytes (as a
    file does) or, with [eof_with_data], together with its last bytes; both
    are allowed by [io.Reader].  [fail] injects an error into a call. *)

(** The first [n] bytes of [l], and what is left after them. *)

Fixpoint take (n : N) (l : list byte) : list byte :=
  match l with
  | [] => []
  | x :: t => if (n =? 0)%N then [] else x :: take (N.pred n) t
  end.

Fixpoint drop (n : N) (l : list byte) : list byte :=
  match l with
  | [] => []
  | x :: t => if (n =? 0)%N then l else drop (N.pred n) t
  end.

Module sim.

Record env : Type := {
  download : list byte;
  network_topology : list byte;
  eof_with_data : bool;
  fail : call -> option error
}.

Definition unread (d : dataset) (w : env) : list byte :=
  match d with
  | Download => download w
  | NetworkTopology => network_topology w
  end.

Definition advance (d : dataset) (rest : list byte) (w : env) : env :=
  match d with
  | Download =>
      {| download := rest; network_topology := network_topology w;
         eof_with_data := eof_with_data w; fail := fail w |}
  | NetworkTopology =>
      {| download := download w; network_topology := rest;
         eof_with_data := eof_with_data w; fail := fail w |}
  end.

(** Modelled from the spec: the readable stream of a dataset, which the
    storage package implements ("each readable stream supports chunked reads
    and an explicit release/close"); a read hands back at most [len] of the
    unread bytes and reports end-of-stream in one of the two ways
    [io.Reader] allows. *)
Definition read (d : dataset) (len : N) (w : env)
  : (list byte * option error) * env :=
  match fail w (Read d len) with
  | Some e => (([], Some e), w)
  | None =>
      let chunk := take len (unread d w) in
      let rest := drop len (unread d w) in
      if eof_with_data w then
        ((chunk, match rest with [] => Some io_EOF | _ => None end),
         advance d rest w)
      else
        match unread d w with
        | [] => (([], Some io_EOF), w)
        | _ => ((chunk, None), advance d rest w)
        end
  end.

(** Modelled from the spec: the manager client, the trainer stream and
    the storage as the interfaces of section 6 describe them; each call
    succeeds unless a failure is injected. *)
Definition answer (c : call) (w : env) : resp c * env :=
  match c return resp c * env with
  | UpdateScheduler m req => (fail w (UpdateScheduler m req), w)
  | Train t timeout => (fail w (Train t timeout), w)
  | Send m => (fail w (Send m), w)
  | CloseAndRecv => (fail w CloseAndRecv, w)
  | Open d s => (fail w (Open d s), w)
  | Read d len => read d len w
  | Close d => (fail w (Close d), w)
  | cancel => (tt, w)
  end.

Definition collaborators : Collaborators :=
  {| World := env; handle := answer |}.

Definition no_failure : call -> option error := fun _ => None.

(** No failure is injected. *)
Definition quiet (w : env) : Prop := forall c, fail w c = None.

(** A storage holding the two datasets, with no injected failure. *)
Definition healthy (dl nt : list byte) (eager : bool) : env :=
  {| download := dl; network_topology := nt;
     eof_with_data := eager; fail := no_failure |}.

(** The trainer refuses the final acknowledgement. *)
Definition finalize_fails : call -> option error :=
  fun c =>
    match c with
    | CloseAndRecv => Some (opaque "trainer unavailable")
    | _ => None
    end.

(** Reading the download dataset fails, and so does opening the network
    topology dataset. *)
Definition uploads_fail : call -> option error :=
  fun c =>
    match c with
    | Read Download _ => Some (opaque "disk failure")
    | Open NetworkTopology _ => Some (opaque "permission denied")
    | _ => None
    end.

(** The trainer rejects every message. *)
Definition send_fails : call -> option error :=
  fun c =>
    match c with
    | Send _ => Some (opaque "stream reset")
    | _ => None
    end.

(** The manager refuses the registration. *)
Definition registration_fails : call -> option error :=
  fun c =>
    match c with
    | UpdateScheduler _ _ => Some (opaque "manager unreachable")
    | _ => None
    end.

Definition faulty (dl nt : list byte) (f : call -> option error) : env :=
  {| download := dl; network_topology := nt;
     eof_with_data := false; fail := f |}.

Definition init (w : env) : @state collaborators :=
  {| world := w : @World collaborators; chans := []; trace := [] |}.

Definition cfg : config.Config :=
  {| config.Server_Host := "scheduler-0";
     config.Server_AdvertiseIP := "10.0.0.7";
     config.Server_AdvertisePort := 8002;
     config.Host_IDC := "idc-a";
     config.Host_Location := "rack-1";
     config.Manager_SchedulerClusterID := 1;
     config.Manager_KeepAlive_Interval := 5000000000;
     config.Trainer_Interval := 1000000000;
     config.Trainer_UploadTimeout := 10000000000 |}.

(** An announcer as [New] builds it with [WithTrainerClient]. *)
Definition ann : announcer :=
  {| config := cfg; managerClient := 0%nat; trainerClient := Some 0%nat;
     storage := 0%nat; done := 0%nat |}.

(** The state [New] leaves: the [done] channel made and open. *)
Definition started : @state collaborators :=
  {| world := healthy [] [] false : @World collaborators;
     chans := [false]; trace := [] |}.

End sim.

(** ** The shape the specification gives to the messages of an upload *)

(** [payloads] are [k] chunks of [size] bytes followed, if [r > 0], by one
    chunk of [r] bytes, and together they are [data]. *)
Definition chunked (size k r : N) (data : list byte)
           (payloads : list (list byte)) : Prop :=
  exists fulls partial,
    payloads = fulls ++ (if (0 <? r)%N then [partial] else []) /\
    N.of_nat (List.length fulls) = k /\
    Forall (fun c => N.of_nat (List.length c) = size) fulls /\
    N.of_nat (List.length partial) = r /\
    List.concat fulls ++ partial = data.

(** The chunks a dataset is read in: [k] times [size] bytes, then what is
    left, if anything. *)
Fixpoint chunks (size : N) (k : nat) (data : list byte) : list (list byte) :=
  match k with
  | O => match data with [] => [] | _ => [data] end
  | S k' => take size data :: chunks size k' (drop size data)
  end.

(** The payloads of the messages an upload task sends for a dataset held by
    the simulated storage. *)
Definition upload_payloads (d : dataset) (fuel : nat) (w : sim.env)
  : outcome (option error) * list (list byte) :=
  let (o, st) := @exec sim.collaborators _ (upload_task d fuel sim.ann) (sim.init w) in
  (o, map trainerv1.Dataset (sends (trace st))).

(** ** Predicates over programs and runs *)

(** Every call a program can make satisfies [P]. *)
Fixpoint calls_satisfy {A : Type} (P : call -> Prop) (p : prog A) : Prop :=
  match p with
  | Ret _ => True
  | Diverge => True
  | Call c k => P c /\ forall r, calls_satisfy P (k r)
  end.

(** The calls of an upload task for [d] on behalf of [a]. *)
Definition upload_call (d : dataset) (a : announcer) (c : call) : Prop :=
  c = Open d (storage a) \/
  c = Read d UploadBufferSize \/
  (exists buf_n, c = Send (chunk_request d a buf_n)) \/
  c = Close d.

Definition goroutine_calls (P : call -> Prop) (g : goroutine) : Prop :=
  match g with
  | Running p => calls_satisfy P p
  | Exited => True
  end.

(** [r] is a value the program can return. *)
Fixpoint returns {A : Type} (r : A) (p : prog A) : Prop :=
  match p with
  | Ret a => a = r
  | Diverge => False
  | Call c k => exists x, returns r (k x)
  end.

(** A computation only appends events satisfying [P] to the trace. *)
Definition emits {C : Collaborators} {A : Type} (P : event -> Prop) (m : M A) : Prop :=
  forall st o st',
    m st = (o, st') ->
    exists evs, trace st' = trace st ++ evs /\ Forall P evs.

(** The state after call [c] has been made and answered. *)
Definition after {C : Collaborators} (c : call) (st : state) : state :=
  {| world := snd (handle c (world st)); chans := chans st;
     trace := trace st ++ [EvCall c] |}.

(** Neither the finalization of the stream nor the cancellation of the
    round's context. *)
Definition within_uploads (ev : event) : Prop :=
  is_call CloseAndRecv ev = false /\ is_call cancel ev = false.

(** Anything but a registration. *)
Definition not_registration (ev : event) : Prop := is_registration ev = false.

(** The calls an upload task for [d] makes between opening and closing. *)
Definition is_transfer (d : dataset) (ev : event) : Prop :=
  ev = EvCall (Read d UploadBufferSize) \/ exists m, ev = EvCall (Send m).

(** The announcer [New] registers: the initial struct after its options. *)
Definition configured (cfg : config.Config) (mgr : managerclient_V2)
           (sto : storage_Storage) (options : list Option) (ch : chan) : announcer :=
  fold_left (fun a opt => opt a) options
    {| config := cfg; managerClient := mgr; trainerClient := None;
       storage := sto; done := ch |}.

Definition registration (a : announcer) : call :=
  UpdateScheduler (managerClient a)
    {| managerv2.us_SourceType := managerv2.SourceType_SCHEDULER_SOURCE;
       managerv2.us_Hostname := config.Server_Host (config a);
       managerv2.us_Ip := config.Server_AdvertiseIP (config a);
       managerv2.us_Port := int32 (config.Server_AdvertisePort (config a));
       managerv2.us_Idc := config.Host_IDC (config a);
       managerv2.us_Location := config.Host_Location (config a);
       managerv2.us_SchedulerClusterId :=
         uint64 (config.Manager_SchedulerClusterID (config a)) |}.

(** [Stop] called twice on the announcer [New] returns. *)
Definition stop_twice {C : Collaborators} (cfg : config.Config) : M (option error) :=
  r <- New cfg 0%nat 0%nat [] ;;
  match fst r with
  | Some a => Stop a ;;; Stop a
  | None => ret (snd r)
  end.

(** ** Concrete runs against the simulated collaborators *)

Module run.

(** A fresh process: nothing made, nothing called. *)
Definition boot : @state sim.collaborators :=
  sim.init (sim.healthy [] [] false).

(** A fresh process whose manager refuses the registration. *)
Definition boot_unregistered : @state sim.collaborators :=
  sim.init (sim.faulty [] [] sim.registration_fails).

(** After [New]: the [done] channel is open; the storage holds one byte of
    each dataset and the given failures are injected. *)
Definition serving (f : call -> option error) : @state sim.collaborators :=
  {| world := sim.faulty [x01] [x02] f : @World sim.collaborators;
     chans := [false]; trace := [] |}.

(** A round whose uploads both fail, the network topology one first. *)
Definition both_fail : outcome (option error) * @state sim.collaborators :=
  train 2 sim.ann [GoNetworkTopology; GoNetworkTopology; GoDownload]
        (serving sim.uploads_fail).

(** A round whose uploads succeed and whose finalization fails. *)
Definition finalize_fails : outcome (option error) * @state sim.collaborators :=
  train 3 sim.ann [] (serving sim.finalize_fails).

(** An upload task whose sends fail. *)
Definition send_fails : outcome (option error) * @state sim.collaborators :=
  exec (upload_task Download 3 sim.ann) (serving sim.send_fails).

(** What the training loop is offered once another goroutine calls
    [Stop]: the call, then the closed [done] channel. *)
Definition offers : list select_event := [StopCalled; DoneChosen].

(** The round of a tick when the trainer rejects every message. *)
Definition failed_round : outcome (option error) * @state sim.collaborators :=
  train 3 sim.ann [] (serving sim.send_fails).

(** [Serve] until shutdown. *)
Definition served : outcome (option error) * @state sim.collaborators :=
  Serve 3 sim.ann (TickFires [] :: offers) (serving sim.no_failure).

(** The state in which an upload task finds an empty download dataset
    once the storage has opened it. *)
Definition opened_empty : @state sim.collaborators :=
  after (Open Download (storage sim.ann)) boot.

End run.

(** ** The closures of a round and the upload tasks they call *)







(** * Further definitions: the alphabet and the shape of a round *)

(** The body of [train], which the deferred [cancel] follows. *)
Definition train_body {C : Collaborators} (fuel : nat) (a : announcer)
           (sched : list task) : M (option error) :=
  match trainerClient a with
  | None => panic "invalid memory address or nil pointer dereference"
  | Some client =>
      err <- call_ (Train client (config.Trainer_UploadTimeout (config a))) ;;
      match err with
      | Some e => ret (Some e)
      | None =>
          err <- errgroup_Wait sched
                   (Running (train_go_download fuel a),
                    Running (train_go_network_topology fuel a))
                   None ;;
          match err with
          | Some e => ret (Some e)
          | None =>
              err <- call_ CloseAndRecv ;;
              match err with
              | Some e => ret (Some e)
              | None => ret None
              end
          end
      end
  end.

(** The calls the body of a training round of [a] can make. *)
Definition body_call (a : announcer) (c : call) : Prop :=
  c = CloseAndRecv \/
  (exists client,
      trainerClient a = Some client /\
      c = Train client (config.Trainer_UploadTimeout (config a))) \/
  upload_call Download a c \/
  upload_call NetworkTopology a c.

(** What the body of a round can append to the trace. *)
Definition body_event (a : announcer) (ev : event) : Prop :=
  match ev with
  | EvCall c => body_call a c
  | EvGoExit _ _ => True
  | _ => False
  end.

(** The calls a training round of [a] can make. *)
Definition round_call (a : announcer) (c : call) : Prop :=
  c = cancel \/ body_call a c.

(** What the training loop of [a] can append to the trace. *)
Definition loop_event (a : announcer) (ev : event) : Prop :=
  match ev with
  | EvCall c => round_call a c
  | EvGoExit _ _ => True
  | EvError _ => True
  | EvGoKeepAlive _ _ _ _ => False
  | EvInfo _ => False
  end.

(** A message carries the identity of the node as [a] is configured. *)
Definition stamped (a : announcer) (m : trainerv1.TrainRequest) : Prop :=
  trainerv1.Hostname m = config.Server_Host (config a) /\
  trainerv1.Ip m = config.Server_AdvertiseIP (config a) /\
  trainerv1.ClusterId m = uint64 (config.Manager_SchedulerClusterID (config a)).

Definition is_keepalive (ev : event) : bool :=
  match ev with
  | EvGoKeepAlive _ _ _ _ => true
  | _ => false
  end.

Definition is_read (ev : event) : bool :=
  match ev with
  | EvCall (Read _ _) => true
  | _ => false
  end.

Definition is_send (ev : event) : bool :=
  match ev with
  | EvCall (Send _) => true
  | _ => false
  end.

(** The keepalive [announceToManager] starts for [a]. *)
Definition keepalive (a : announcer) : event :=
  EvGoKeepAlive (managerClient a)
    (config.Manager_KeepAlive_Interval (config a))
    {| managerv2.ka_SourceType := managerv2.SourceType_SCHEDULER_SOURCE;
       managerv2.ka_Hostname := config.Server_Host (config a);
       managerv2.ka_Ip := config.Server_AdvertiseIP (config a);
       managerv2.ka_ClusterId :=
         uint64 (config.Manager_SchedulerClusterID (config a)) |}
    (done a).

(** The calls of an upload task between [Open] and [Close]: reads and sends
    alternate, starting with a read; only the last read may lack its send. *)
Inductive transfers (d : dataset) (a : announcer) : list call -> Prop :=
| transfers_read :
    transfers d a [Read d UploadBufferSize]
| transfers_read_send buf_n :
    transfers d a [Read d UploadBufferSize; Send (chunk_request d a buf_n)]
| transfers_more buf_n rest :
    transfers d a rest ->
    transfers d a (Read d UploadBufferSize :: Send (chunk_request d a buf_n) :: rest).

(** A computation leaves the channels as they are. *)
Definition keeps_chans {C : Collaborators} {A : Type} (m : M A) : Prop :=
  forall st o st', m st = (o, st') -> chans st' = chans st.

(** The last element of a list, if any. *)
Fixpoint last_of {A : Type} (l : list A) : option A :=
  match l with
  | [] => None
  | [x] => Some x
  | _ :: l' => last_of l'
  end.


Definition is_stop_called (ev : select_event) : bool :=
  match ev with
  | StopCalled => true
  | _ => false
  end.

(** The last trainer client of a list, as [WithTrainerClient] leaves it. *)
Definition last_client (clients : list trainerclient_V1) : option trainerclient_V1 :=
  last_of clients.

(** The registration request of [a], without the client it is sent to. *)
Definition registration_request (a : announcer) : managerv2.UpdateSchedulerRequest :=
  {| managerv2.us_SourceType := managerv2.SourceType_SCHEDULER_SOURCE;
     managerv2.us_Hostname := config.Server_Host (config a);
     managerv2.us_Ip := config.Server_AdvertiseIP (config a);
     managerv2.us_Port := int32 (config.Server_AdvertisePort (config a));
     managerv2.us_Idc := config.Host_IDC (config a);
     managerv2.us_Location := config.Host_Location (config a);
     managerv2.us_SchedulerClusterId :=
       uint64 (config.Manager_SchedulerClusterID (config a)) |}.

(** * Further definitions: the two uploads of a round, apart and together *)

(** The dataset a message is tagged with. *)
Definition tag (m : trainerv1.TrainRequest) : dataset :=
  match trainerv1.Request m with
  | trainerv1.TrainRequest_TrainMlpRequest _ => Download
  | trainerv1.TrainRequest_TrainGnnRequest _ => NetworkTopology
  end.

(** The dataset a call is about, if any. *)
Definition owner (c : call) : option dataset :=
  match c with
  | Open d _ => Some d
  | Read d _ => Some d
  | Close d => Some d
  | Send m => Some (tag m)
  | _ => None
  end.

Definition dataset_eqb (d d' : dataset) : bool :=
  match d, d' with
  | Download, Download => true
  | NetworkTopology, NetworkTopology => true
  | _, _ => false
  end.

Definition owned (d : dataset) (c : call) : bool :=
  match owner c with
  | Some d' => dataset_eqb d d'
  | None => false
  end.

(** The calls about [d] in a trace, in order. *)
Fixpoint calls_of (d : dataset) (evs : list event) : list call :=
  match evs with
  | [] => []
  | EvCall c :: evs' =>
      if owned d c then c :: calls_of d evs' else calls_of d evs'
  | _ :: evs' => calls_of d evs'
  end.

(** The payloads sent for [d] in a trace, in order. *)
Definition payloads_of (d : dataset) (evs : list event) : list (list byte) :=
  map trainerv1.Dataset (sends (map EvCall (calls_of d evs))).

(** [cs] are the calls along one branch of [p], which ends by returning [r]. *)
Fixpoint branch {A : Type} (p : prog A) (cs : list call) (r : A) : Prop :=
  match p with
  | Ret a => cs = [] /\ a = r
  | Diverge => False
  | Call c k =>
      match cs with
      | [] => False
      | c' :: cs' => c' = c /\ exists x, branch (k x) cs' r
      end
  end.

(** A program run alone from world [w]: its outcome, the calls it makes and
    the world it leaves. *)
Fixpoint solo {C : Collaborators} {A : Type} (p : prog A) (w : World)
  : outcome A * list call * World :=
  match p with
  | Ret a => (Returned a, [], w)
  | Diverge => (Pending, [], w)
  | Call c k =>
      let (x, w') := handle c w in
      let '(o, cs, w'') := solo (k x) w' in
      (o, c :: cs, w'')
  end.

(** What a goroutine would do alone from [w]: return [r] after the calls
    [cs]; one that has exited does nothing more. *)
Definition solo_of {C : Collaborators} (g : goroutine) (w : World)
           (r : option error) (cs : list call) : Prop :=
  match g with
  | Running p => fst (solo p w) = (Returned r, cs)
  | Exited => cs = []
  end.

(** The collaborators keep the two datasets apart: [same d] relates worlds
    that answer the calls about [d] alike; a call about [d] is answered
    alike in such worlds and leaves them so related, and a call about the
    other dataset leaves the world as it was for [d]. *)
Record independent {C : Collaborators}
       (same : dataset -> World -> World -> Prop) : Prop := {
  same_refl : forall d w, same d w w;
  same_trans : forall d w1 w2 w3, same d w1 w2 -> same d w2 w3 -> same d w1 w3;
  same_answer : forall d c w w',
      owned d c = true -> same d w w' ->
      fst (handle c w) = fst (handle c w') /\
      same d (snd (handle c w)) (snd (handle c w'));
  other_untouched : forall d d' c w,
      owned d' c = true -> d <> d' -> same d (snd (handle c w)) w
}.

(** The simulated storage keeps its two datasets apart. *)
Definition sim_same (d : dataset) (w w' : sim.env) : Prop :=
  sim.unread d w = sim.unread d w' /\
  sim.eof_with_data w = sim.eof_with_data w' /\
  sim.fail w = sim.fail w'.

(** What the trace of [Wait] holds for a goroutine [g] of task [t]: the
    calls about its dataset are those along one branch of its program, and
    the value that branch returns is among the exits. *)
Definition projected (t : task) (g : goroutine) (evs : list event) : Prop :=
  match g with
  | Running p =>
      exists x, In (t, x) (exits evs) /\ branch p (calls_of (dataset_of t) evs) x
  | Exited => calls_of (dataset_of t) evs = []
  end.

(** The payloads the simulated storage yields for a dataset of [k] full
    chunks and what is left. *)
Definition sim_expected (eof_with_data : bool) (k : nat) (data : list byte)
  : list (list byte) :=
  if eof_with_data then
    match data with
    | [] => [[]]
    | _ => chunks UploadBufferSize k data
    end
  else chunks UploadBufferSize k data ++ [[]].

(** ** Further runs against the simulated collaborators *)

Module scenario.

(** An announcer built without [WithTrainerClient]. *)
Definition manager_only : announcer :=
  {| config := sim.cfg; managerClient := 0%nat; trainerClient := None;
     storage := 0%nat; done := 0%nat |}.

(** The trainer refuses to open the stream. *)
Definition train_fails : call -> option error :=
  fun c =>
    match c with
    | Train _ _ => Some (opaque "trainer unreachable")
    | _ => None
    end.


(** The training loop over one tick and a shutdown. *)
Definition looped : outcome (option error) * @state sim.collaborators :=
  announceToTrainer 3 sim.ann (TickFires [] :: run.offers)
                    (run.serving sim.no_failure).


(** A round whose stream the trainer refuses to open. *)
Definition refused : outcome (option error) * @state sim.collaborators :=
  train 3 sim.ann [GoDownload] (run.serving train_fails).

(** An upload task against a healthy storage and trainer. *)
Definition uploaded : outcome (option error) * @state sim.collaborators :=
  exec (upload_task Download 3 sim.ann) (run.serving sim.no_failure).

(** A healthy round under some interleaving of its uploads. *)
Definition interleaved : outcome (option error) * @state sim.collaborators :=
  train 3 sim.ann [GoNetworkTopology; GoDownload; GoDownload; GoNetworkTopology]
        (run.serving sim.no_failure).

(** Two announcers built one after the other. *)
Definition first_built
  : outcome (option announcer * option error) * @state sim.collaborators :=
  New sim.cfg 0%nat 0%nat [WithTrainerClient 0%nat] run.boot.

Definition second_built
  : outcome (option announcer * option error) * @state sim.collaborators :=
  New sim.cfg 0%nat 0%nat [] (snd first_built).

(** The second of them. *)
Definition second_ann : announcer :=
  {| config := sim.cfg; managerClient := 0%nat; trainerClient := None;
     storage := 0%nat; done := 1%nat |}.

(** The calls of an upload run alone once the stream is open. *)
Definition alone (t : task) : list call :=
  snd (fst (@solo sim.collaborators _ (train_go t 3 sim.ann)
                  (world (run.serving sim.no_failure)))).

End scenario.

(** * Properties *)

(** ** Runs of programs and traces *)

Section Framework.

Context {C : Collaborators}.

Lemma exec_pbind {A B : Type} (p : prog A) (f : A -> prog B) (st : state) :
  exec (pbind p f) st = bind (exec p) (fun a => exec (f a)) st.
Proof.
  revert st. induction p as [a | | c k IH]; intros st; simpl.
  - reflexivity.
  - reflexivity.
  - unfold bind in *. destruct (call_ c st) as [[r | msg | ] st1]; auto.
Qed.

Lemma call_run (c : call) (st : state) :
  call_ c st = (Returned (fst (handle c (world st))), after c st).
Proof. unfold call_, after. destruct (handle c (world st)); reflexivity. Qed.

(** A computation that leaves the state as it found it emits nothing. *)
Ltac emits_nothing :=
  let H := fresh "H" in
  intros ? ? ? H; inversion H; subst; exists []; rewrite app_nil_r; auto.

Lemma emits_ret {A : Type} (P : event -> Prop) (a : A) : emits P (ret a).
Proof. emits_nothing. Qed.

Lemma emits_panic {A : Type} (P : event -> Prop) msg : emits P (@panic _ A msg).
Proof. emits_nothing. Qed.

Lemma emits_pending {A : Type} (P : event -> Prop) : emits P (@pending _ A).
Proof. emits_nothing. Qed.

Lemma emits_log (P : event -> Prop) ev : P ev -> emits P (log ev).
Proof.
  intros HP st o st' H. inversion H; subst. exists [ev]. simpl. auto.
Qed.

Lemma emits_call (P : event -> Prop) c : P (EvCall c) -> emits P (call_ c).
Proof.
  intros HP st o st' H. rewrite call_run in H. inversion H; subst.
  exists [EvCall c]. simpl. auto.
Qed.

Lemma emits_bind {A B : Type} (P : event -> Prop) (m : M A) (f : A -> M B) :
  emits P m -> (forall a, emits P (f a)) -> emits P (bind m f).
Proof.
  intros Hm Hf st o st' H. unfold bind in H.
  destruct (m st) as [[a | msg | ] st1] eqn:E;
    destruct (Hm _ _ _ E) as (evs1 & T1 & F1).
  - destruct (Hf a _ _ _ H) as (evs2 & T2 & F2).
    exists (evs1 ++ evs2). rewrite T2, T1, app_assoc. split; auto.
    apply Forall_app; auto.
  - inversion H; subst. eauto.
  - inversion H; subst. eauto.
Qed.

Lemma emits_defer {A B : Type} (P : event -> Prop) (cleanup : M B) (body : M A) :
  emits P cleanup -> emits P body -> emits P (defer cleanup body).
Proof.
  intros Hc Hb st o st' H. unfold defer in H.
  destruct (body st) as [[a | msg | ] st1] eqn:E;
    destruct (Hb _ _ _ E) as (evs1 & T1 & F1).
  - destruct (cleanup st1) as [[b | msg | ] st2] eqn:E2;
      destruct (Hc _ _ _ E2) as (evs2 & T2 & F2);
      inversion H; subst; exists (evs1 ++ evs2);
      rewrite T2, T1, app_assoc; (split; [reflexivity | apply Forall_app; auto]).
  - destruct (cleanup st1) as [[b | msg' | ] st2] eqn:E2;
      destruct (Hc _ _ _ E2) as (evs2 & T2 & F2);
      inversion H; subst; exists (evs1 ++ evs2);
      rewrite T2, T1, app_assoc; (split; [reflexivity | apply Forall_app; auto]).
  - inversion H; subst. eauto.
Qed.

Lemma emits_exec {A : Type} (P : event -> Prop) (p : prog A) :
  calls_satisfy (fun c => P (EvCall c)) p -> emits P (exec p).
Proof.
  induction p as [a | | c k IH]; simpl; intros H.
  - apply emits_ret.
  - apply emits_pending.
  - destruct H as [Hc Hk]. apply emits_bind.
    + apply emits_call; assumption.
    + intros r. apply IH, Hk.
Qed.

Lemma calls_satisfy_pbind {A B : Type} (P : call -> Prop) (p : prog A)
      (f : A -> prog B) :
  calls_satisfy P p -> (forall a, calls_satisfy P (f a)) ->
  calls_satisfy P (pbind p f).
Proof.
  intros Hp Hf. induction p as [a | | c k IH]; simpl in *; auto.
  destruct Hp as [Hc Hk]. split; auto.
Qed.

End Framework.

(** ** The upload tasks are instances of [upload] *)

Lemma uploadDownloadToTrainer_loop_upload (n : nat) (a : announcer) :
  uploadDownloadToTrainer_loop n a = upload_loop Download a n.
Proof. induction n as [| n IH]; simpl; [reflexivity | rewrite IH; reflexivity]. Qed.

Lemma uploadNetworkTopologyToTrainer_loop_upload (n : nat) (a : announcer) :
  uploadNetworkTopologyToTrainer_loop n a = upload_loop NetworkTopology a n.
Proof. induction n as [| n IH]; simpl; [reflexivity | rewrite IH; reflexivity]. Qed.

Lemma uploadDownloadToTrainer_upload (fuel : nat) (a : announcer) :
  uploadDownloadToTrainer fuel a = upload Download fuel a.
Proof.
  unfold uploadDownloadToTrainer, upload.
  rewrite uploadDownloadToTrainer_loop_upload. reflexivity.
Qed.

Lemma uploadNetworkTopologyToTrainer_upload (fuel : nat) (a : announcer) :
  uploadNetworkTopologyToTrainer fuel a = upload NetworkTopology fuel a.
Proof.
  unfold uploadNetworkTopologyToTrainer, upload.
  rewrite uploadNetworkTopologyToTrainer_loop_upload. reflexivity.
Qed.

Lemma upload_task_upload (d : dataset) (fuel : nat) (a : announcer) :
  upload_task d fuel a = upload d fuel a.
Proof.
  destruct d; simpl.
  - apply uploadDownloadToTrainer_upload.
  - apply uploadNetworkTopologyToTrainer_upload.
Qed.

Lemma train_go_download_eq (fuel : nat) (a : announcer) :
  train_go_download fuel a = train_go GoDownload fuel a.
Proof.
  unfold train_go_download, train_go. rewrite uploadDownloadToTrainer_upload.
  reflexivity.
Qed.

Lemma train_go_network_topology_eq (fuel : nat) (a : announcer) :
  train_go_network_topology fuel a = train_go GoNetworkTopology fuel a.
Proof.
  unfold train_go_network_topology, train_go.
  rewrite uploadNetworkTopologyToTrainer_upload. reflexivity.
Qed.

(** ** What the code can emit *)

Lemma calls_satisfy_weaken {A : Type} (P Q : call -> Prop) (p : prog A) :
  (forall c, P c -> Q c) -> calls_satisfy P p -> calls_satisfy Q p.
Proof.
  intros HPQ. induction p as [a | | c k IH]; simpl; auto.
  intros [Hc Hk]. split; auto.
Qed.

Lemma upload_loop_calls (d : dataset) (a : announcer) (n : nat) :
  calls_satisfy (upload_call d a) (upload_loop d a n).
Proof.
  induction n as [| n IH]; simpl; [exact I |].
  split; [right; left; reflexivity |].
  intros [buf_n err]. simpl.
  destruct (is_failure err); simpl; [exact I |].
  split; [right; right; left; eexists; reflexivity |].
  intros [e |]; simpl; [exact I |].
  destruct (is_EOF err); simpl; [exact I | exact IH].
Qed.

Lemma upload_calls (d : dataset) (fuel : nat) (a : announcer) :
  calls_satisfy (upload_call d a) (upload d fuel a).
Proof.
  unfold upload. apply calls_satisfy_pbind.
  - simpl. split; [left; reflexivity | intros; exact I].
  - intros [e |]; simpl; [exact I |].
    unfold pdefer. apply calls_satisfy_pbind; [apply upload_loop_calls |].
    intros r. simpl. split; [right; right; right; reflexivity | intros; exact I].
Qed.

Lemma train_go_calls (t : task) (fuel : nat) (a : announcer) :
  calls_satisfy (upload_call (dataset_of t) a) (train_go t fuel a).
Proof.
  unfold train_go. apply calls_satisfy_pbind; [apply upload_calls |].
  intros [e |]; simpl; exact I.
Qed.

Section Emits.

Context {C : Collaborators}.
Variable P : event -> Prop.
Hypothesis P_exit : forall t r, P (EvGoExit t r).

Lemma emits_finish t g kept :
  goroutine_calls (fun c => P (EvCall c)) g -> emits P (finish t g kept).
Proof.
  intros Hg. destruct g as [p |]; simpl.
  - apply emits_bind; [apply emits_exec; exact Hg |].
    intros r. apply emits_bind; [apply emits_log, P_exit |].
    intros _. apply emits_ret.
  - apply emits_ret.
Qed.

Lemma goroutine_calls_pick t gs :
  goroutine_calls (fun c => P (EvCall c)) (fst gs) -> goroutine_calls (fun c => P (EvCall c)) (snd gs) ->
  goroutine_calls (fun c => P (EvCall c)) (pick t gs).
Proof. destruct t; simpl; auto. Qed.

Lemma goroutine_calls_put t g gs :
  goroutine_calls (fun c => P (EvCall c)) g ->
  goroutine_calls (fun c => P (EvCall c)) (fst gs) -> goroutine_calls (fun c => P (EvCall c)) (snd gs) ->
  goroutine_calls (fun c => P (EvCall c)) (fst (put t g gs)) /\ goroutine_calls (fun c => P (EvCall c)) (snd (put t g gs)).
Proof. destruct t; simpl; auto. Qed.

Lemma emits_errgroup_Wait sched : forall gs kept,
  goroutine_calls (fun c => P (EvCall c)) (fst gs) -> goroutine_calls (fun c => P (EvCall c)) (snd gs) ->
  emits P (errgroup_Wait sched gs kept).
Proof.
  induction sched as [| t sched IH]; intros gs kept H1 H2.
  - assert (Hfin : emits P (kept1 <- finish GoDownload (fst gs) kept ;;
                             finish GoNetworkTopology (snd gs) kept1)).
    { apply emits_bind; [apply emits_finish; exact H1 |].
      intros k1. apply emits_finish; exact H2. }
    destruct gs as [[p1 |] [p2 |]]; simpl; first [exact Hfin | apply emits_ret].
  - assert (Hstep : emits P
      match pick t gs with
      | Exited => errgroup_Wait sched gs kept
      | Running (Ret r) =>
          log (EvGoExit t r) ;;;
          errgroup_Wait sched (put t Exited gs) (errOnce kept r)
      | Running Diverge => pending
      | Running (Call c k) =>
          r <- call_ c ;;
          errgroup_Wait sched (put t (Running (k r)) gs) kept
      end).
    { pose proof (goroutine_calls_pick t gs H1 H2) as Hp.
      destruct (pick t gs) as [[r | | c k] |]; simpl in Hp.
      - apply emits_bind; [apply emits_log, P_exit |].
        intros _. apply IH; apply (goroutine_calls_put t Exited gs); simpl; auto.
      - apply emits_pending.
      - destruct Hp as [Hc Hk]. apply emits_bind; [apply emits_call, Hc |].
        intros r. apply IH; apply (goroutine_calls_put t (Running (k r)) gs);
          simpl; auto.
      - apply IH; assumption. }
    destruct gs as [[p1 |] [p2 |]]; simpl; first [exact Hstep | apply emits_ret].
Qed.

End Emits.

(** ** After construction nothing registers again *)

Section NoRegistration.

Context {C : Collaborators}.
Variable fuel : nat.

Lemma upload_call_not_registration d a c :
  upload_call d a c -> not_registration (EvCall c).
Proof.
  intros [H | [H | [[m H] | H]]]; subst; reflexivity.
Qed.

Lemma emits_close_chan (P : event -> Prop) c : emits P (close_chan c).
Proof.
  intros st o st' H. unfold close_chan in H.
  destruct (nth_error (chans st) c) as [[|] |]; inversion H; subst;
    exists []; rewrite app_nil_r; auto.
Qed.

Lemma emits_Stop (P : event -> Prop) a : emits P (Stop a).
Proof.
  unfold Stop. apply emits_bind; [apply emits_close_chan |].
  intros ?. apply emits_ret.
Qed.

Lemma train_go_not_registration t a :
  goroutine_calls (fun c => not_registration (EvCall c))
                  (Running (train_go t fuel a)).
Proof.
  cbn [goroutine_calls]. eapply calls_satisfy_weaken; [| apply train_go_calls].
  intros c. apply upload_call_not_registration.
Qed.

Lemma emits_train a sched : emits not_registration (train fuel a sched).
Proof.
  unfold train. apply emits_defer; [apply emits_call; reflexivity |].
  destruct (trainerClient a) as [client |]; [| apply emits_panic].
  apply emits_bind; [apply emits_call; reflexivity |].
  intros [e |]; [apply emits_ret |].
  apply emits_bind.
  - rewrite train_go_download_eq, train_go_network_topology_eq.
    apply emits_errgroup_Wait; try apply train_go_not_registration.
    intros; reflexivity.
  - intros [e |]; [apply emits_ret |].
    apply emits_bind; [apply emits_call; reflexivity |].
    intros [e |]; apply emits_ret.
Qed.

Lemma emits_announceToTrainer_loop a evs :
  emits not_registration (announceToTrainer_loop fuel a evs).
Proof.
  induction evs as [| ev evs IH]; simpl; [apply emits_pending |].
  destruct ev as [sched | |].
  - apply emits_bind; [apply emits_train |].
    intros [e |]; (apply emits_bind; [| intros ?; exact IH]);
      [apply emits_log; reflexivity | apply emits_ret].
  - apply emits_bind; [apply emits_Stop | intros ?; exact IH].
  - intros st o st' H. destruct (is_closed (done a) st).
    + eapply emits_ret; exact H.
    + eapply IH; exact H.
Qed.

Lemma emits_Serve a evs : emits not_registration (Serve fuel a evs).
Proof.
  unfold Serve. apply emits_bind; [apply emits_log; reflexivity |].
  intros ?. apply emits_bind.
  - unfold announceToManager. apply emits_bind; [apply emits_log; reflexivity |].
    intros ?. apply emits_ret.
  - intros [e |]; [apply emits_ret |].
    destruct (trainerClient a); [| apply emits_ret].
    apply emits_bind; [apply emits_log; reflexivity |].
    intros ?. apply emits_bind.
    + unfold announceToTrainer.
      destruct (config.Trainer_Interval (config a) <=? 0);
        [apply emits_panic | apply emits_announceToTrainer_loop].
    + intros [e |]; apply emits_ret.
Qed.

End NoRegistration.

(** ** Construction and registration *)

Section Registrar.

Context {C : Collaborators}.

Lemma New_run cfg mgr sto options (st : state) :
  let a := configured cfg mgr sto options (List.length (chans st)) in
  New cfg mgr sto options st =
  (Returned
     match fst (handle (registration a) (world st)) with
     | Some e => (None, Some e)
     | None => (Some a, None)
     end,
   {| world := snd (handle (registration a) (world st));
      chans := chans st ++ [false];
      trace := trace st ++ [EvCall (registration a)] |}).
Proof.
  intros a. unfold New, bind, make_chan.
  fold (configured cfg mgr sto options (List.length (chans st))). fold a.
  change (UpdateScheduler _ _) with (registration a).
  rewrite call_run. unfold after. simpl.
  destruct (handle (registration a) (world st)) as [[e |] w']; reflexivity.
Qed.

(** C3.  When the registration call succeeds, [New] has made exactly one
    call, the registration built from the configuration, and returns the
    announcer; whatever [Serve] does on it afterwards (heartbeat, training)
    comes after that call and never registers again. *)
Theorem New_registers_exactly_once cfg mgr sto options (st : state) :
  let a := configured cfg mgr sto options (List.length (chans st)) in
  fst (handle (registration a) (world st)) = None ->
  exists st1,
    New cfg mgr sto options st = (Returned (Some a, None), st1) /\
    trace st1 = trace st ++ [EvCall (registration a)] /\
    count is_registration [EvCall (registration a)] = 1%nat /\
    count is_activity [EvCall (registration a)] = 0%nat /\
    forall fuel evs o st2,
      Serve fuel a evs st1 = (o, st2) ->
      exists later,
        trace st2 = trace st ++ EvCall (registration a) :: later /\
        count is_registration later = 0%nat.
Proof.
  intros a Hok. pose proof (New_run cfg mgr sto options st) as HN.
  cbv zeta in HN. fold a in HN. rewrite Hok in HN.
  eexists. split; [exact HN |]. simpl trace.
  split; [reflexivity |]. split; [reflexivity |]. split; [reflexivity |].
  intros fuel evs o st2 HS.
  destruct (emits_Serve fuel a evs _ _ _ HS) as (later & HT & HF).
  exists later. simpl in HT. rewrite HT, <- app_assoc. split; [reflexivity |].
  unfold count. clear - HF. induction HF as [| ev l Hev _ IH]; simpl; auto.
  unfold not_registration in Hev. rewrite Hev. exact IH.
Qed.

(** C4.  When the registration call fails, [New] returns that error and no
    service, having made that one call and nothing else: no keepalive
    goroutine, no call to the trainer or the storage. *)
Theorem New_registration_failure cfg mgr sto options (st : state) e :
  let a := configured cfg mgr sto options (List.length (chans st)) in
  fst (handle (registration a) (world st)) = Some e ->
  exists st1,
    New cfg mgr sto options st = (Returned (None, Some e), st1) /\
    trace st1 = trace st ++ [EvCall (registration a)] /\
    count is_activity [EvCall (registration a)] = 0%nat.
Proof.
  intros a Hfail. pose proof (New_run cfg mgr sto options st) as HN.
  cbv zeta in HN. fold a in HN. rewrite Hfail in HN.
  eexists. split; [exact HN |]. split; reflexivity.
Qed.

End Registrar.

(** ** The shutdown gate *)

Lemma nth_error_set_nth {A : Type} (l : list A) (i : nat) (x y : A) :
  nth_error l i = Some y -> nth_error (set_nth i x l) i = Some x.
Proof.
  revert i. induction l as [| z l IH]; intros [| i] H; simpl in *;
    try discriminate; auto.
Qed.

Section Shutdown.

Context {C : Collaborators}.

Lemma Stop_open a (st : state) :
  nth_error (chans st) (done a) = Some false ->
  Stop a st =
  (Returned None,
   {| world := world st; chans := set_nth (done a) true (chans st);
      trace := trace st |}).
Proof. intros H. unfold Stop, bind, close_chan. rewrite H. reflexivity. Qed.

Lemma Stop_closed a (st : state) :
  is_closed (done a) st = true ->
  Stop a st = (Panicked "close of closed channel", st).
Proof.
  unfold is_closed, Stop, bind, close_chan.
  destruct (nth_error (chans st) (done a)) as [[|] |]; try discriminate.
  reflexivity.
Qed.

(** C2, as the code has it.  [Stop] closes the raw [done] channel: on an
    open channel it returns nil, leaves the channel closed and makes no
    call; a second [Stop] then panics. *)
Theorem Stop_closes_raw_channel a (st : state) :
  nth_error (chans st) (done a) = Some false ->
  exists st1,
    Stop a st = (Returned None, st1) /\
    is_closed (done a) st1 = true /\
    trace st1 = trace st /\
    world st1 = world st /\
    Stop a st1 = (Panicked "close of closed channel", st1).
Proof.
  intros Hopen. eexists. split; [apply Stop_open, Hopen |].
  assert (Hc : is_closed (done a)
                 {| world := world st;
                    chans := set_nth (done a) true (chans st);
                    trace := trace st |} = true).
  { unfold is_closed. simpl. erewrite nth_error_set_nth; eauto. }
  repeat split; auto. apply Stop_closed, Hc.
Qed.

End Shutdown.


Lemma Stop_closes_raw_channel_witness :
  exists st1,
    @Stop sim.collaborators sim.ann sim.started = (Returned None, st1) /\
    is_closed (done sim.ann) st1 = true /\
    trace st1 = trace sim.started /\
    world st1 = world sim.started /\
    Stop sim.ann st1 = (Panicked "close of closed channel", st1).
Proof.
  apply (@Stop_closes_raw_channel sim.collaborators sim.ann sim.started).
  reflexivity.
Defined.

(** C2 as stated fails: the second [Stop] on the announcer [New] returned
    panics instead of returning. *)
Lemma Stop_twice_faults :
  fst (@stop_twice sim.collaborators sim.cfg (sim.init (sim.healthy [] [] false)))
  = Panicked "close of closed channel".
Proof. reflexivity. Qed.

(** ** The training loop and [Serve] *)

Section TrainingLoop.

Context {C : Collaborators}.
Variable fuel : nat.

Lemma announceToTrainer_loop_returns a evs : forall (st : state) r st',
  announceToTrainer_loop fuel a evs st = (Returned r, st') ->
  r = None /\ is_closed (done a) st' = true /\ In DoneChosen evs.
Proof.
  induction evs as [| ev evs IH]; intros st r st' H; simpl in H.
  - discriminate.
  - destruct ev as [sched | |].
    + unfold bind in H.
      destruct (train fuel a sched st) as [[[e |] | msg | ] st1];
        try discriminate; simpl in H;
        destruct (IH _ _ _ H) as (? & ? & ?); simpl; auto.
    + unfold bind in H.
      destruct (Stop a st) as [[r0 | msg | ] st1]; try discriminate.
      destruct (IH _ _ _ H) as (? & ? & ?); simpl; auto.
    + destruct (is_closed (done a) st) eqn:E.
      * inversion H; subst. simpl. auto.
      * destruct (IH _ _ _ H) as (? & ? & ?); simpl; auto.
Qed.

Lemma announceToTrainer_positive a evs :
  0 < config.Trainer_Interval (config a) ->
  announceToTrainer fuel a evs = announceToTrainer_loop fuel a evs.
Proof.
  intros H. unfold announceToTrainer.
  destruct (Z.leb_spec (config.Trainer_Interval (config a)) 0); [lia | reflexivity].
Qed.

(** C8.  With a positive tick interval: a round that fails is logged and
    the loop goes on with whatever the select is offered next; a round that
    succeeds goes on likewise; the loop returns only nil, and only by
    taking [<-a.done] on the closed channel; once the channel is closed and
    [<-a.done] is taken it returns at once, without a round. *)
Theorem announceToTrainer_swallows_round_errors a evs (st : state) :
  0 < config.Trainer_Interval (config a) ->
  (forall sched e st1,
      train fuel a sched st = (Returned (Some e), st1) ->
      announceToTrainer fuel a (TickFires sched :: evs) st =
      announceToTrainer fuel a evs (emit (EvError e) st1)) /\
  (forall sched st1,
      train fuel a sched st = (Returned None, st1) ->
      announceToTrainer fuel a (TickFires sched :: evs) st =
      announceToTrainer fuel a evs st1) /\
  (forall r st',
      announceToTrainer fuel a evs st = (Returned r, st') ->
      r = None /\ is_closed (done a) st' = true /\ In DoneChosen evs) /\
  (is_closed (done a) st = true ->
   announceToTrainer fuel a (DoneChosen :: evs) st = (Returned None, st)).
Proof.
  intros Hpos.
  split; [| split; [| split]].
  - intros sched e st1 H. rewrite !(announceToTrainer_positive _ _ Hpos).
    cbn [announceToTrainer_loop]. unfold bind at 1. rewrite H. reflexivity.
  - intros sched st1 H. rewrite !(announceToTrainer_positive _ _ Hpos).
    cbn [announceToTrainer_loop]. unfold bind at 1. rewrite H. reflexivity.
  - intros r st' H. rewrite (announceToTrainer_positive _ _ Hpos) in H.
    eapply announceToTrainer_loop_returns; eauto.
  - intros Hc. rewrite (announceToTrainer_positive _ _ Hpos).
    simpl. rewrite Hc. reflexivity.
Qed.

Lemma announceToManager_run a (st : state) :
  announceToManager a st =
  (Returned None,
   emit (EvGoKeepAlive (managerClient a)
           (config.Manager_KeepAlive_Interval (config a))
           {| managerv2.ka_SourceType := managerv2.SourceType_SCHEDULER_SOURCE;
              managerv2.ka_Hostname := config.Server_Host (config a);
              managerv2.ka_Ip := config.Server_AdvertiseIP (config a);
              managerv2.ka_ClusterId :=
                uint64 (config.Manager_SchedulerClusterID (config a)) |}
           (done a)) st).
Proof. reflexivity. Qed.

Lemma announceToTrainer_returns a evs (st : state) r st' :
  announceToTrainer fuel a evs st = (Returned r, st') ->
  r = None /\ is_closed (done a) st' = true.
Proof.
  unfold announceToTrainer.
  destruct (config.Trainer_Interval (config a) <=? 0); [discriminate |].
  intros H. destruct (announceToTrainer_loop_returns _ _ _ _ _ H) as (? & ? & ?).
  auto.
Qed.

(** C10.  Whenever [Serve] returns, it returns nil; and it returns either
    because no trainer client is set or because the training loop saw the
    closed [done] channel.  [announceToManager] always returns nil. *)
Theorem Serve_returns_only_nil a evs (st : state) r st' :
  Serve fuel a evs st = (Returned r, st') ->
  r = None /\
  fst (announceToManager a st) = Returned None /\
  (trainerClient a = None \/ is_closed (done a) st' = true).
Proof.
  intros H. split; [| split; [reflexivity |]];
    unfold Serve in H; unfold bind at 1 2 in H; simpl in H;
    destruct (trainerClient a) as [client |].
  - unfold bind in H. simpl in H.
    match type of H with
    | context [announceToTrainer fuel a evs ?s] =>
        destruct (announceToTrainer fuel a evs s) as [[[e |] | msg | ] st1] eqn:E
    end; try discriminate.
    + apply announceToTrainer_returns in E. destruct E; discriminate.
    + inversion H; reflexivity.
  - inversion H; reflexivity.
  - right. unfold bind in H. simpl in H.
    match type of H with
    | context [announceToTrainer fuel a evs ?s] =>
        destruct (announceToTrainer fuel a evs s) as [[[e |] | msg | ] st1] eqn:E
    end; try discriminate.
    + apply announceToTrainer_returns in E. destruct E; discriminate.
    + inversion H; subst. apply announceToTrainer_returns in E. tauto.
  - left; reflexivity.
Qed.

End TrainingLoop.

(** ** Upload tasks *)

Lemma sends_app (l1 l2 : list event) : sends (l1 ++ l2) = sends l1 ++ sends l2.
Proof.
  induction l1 as [| ev l1 IH]; simpl; [reflexivity |].
  destruct ev as [[] | | | |]; simpl; rewrite ?IH; reflexivity.
Qed.

Lemma exits_app (l1 l2 : list event) : exits (l1 ++ l2) = exits l1 ++ exits l2.
Proof.
  induction l1 as [| ev l1 IH]; simpl; [reflexivity |].
  destruct ev; simpl; rewrite ?IH; reflexivity.
Qed.

Section UploadTask.

Context {C : Collaborators}.

Lemma exec_Call {A : Type} (c : call) (k : resp c -> prog A) (st : state) :
  exec (Call c k) st = exec (k (fst (handle c (world st)))) (after c st).
Proof. simpl. unfold bind. rewrite call_run. reflexivity. Qed.

Lemma upload_task_loop_upload d n a :
  upload_task_loop d n a = upload_loop d a n.
Proof.
  destruct d; simpl.
  - apply uploadDownloadToTrainer_loop_upload.
  - apply uploadNetworkTopologyToTrainer_loop_upload.
Qed.

(** One iteration of the [for] loop of an upload task. *)
Lemma upload_loop_step d a n (st : state) :
  let rd := Read d UploadBufferSize in
  let buf_n := fst (fst (handle rd (world st))) in
  let err := snd (fst (handle rd (world st))) in
  let sd := Send (chunk_request d a buf_n) in
  exec (upload_loop d a (S n)) st =
  if is_failure err then (Returned err, after rd st)
  else
    match fst (handle sd (world (after rd st))) with
    | Some e => (Returned (Some e), after sd (after rd st))
    | None =>
        if is_EOF err then (Returned None, after sd (after rd st))
        else exec (upload_loop d a n) (after sd (after rd st))
    end.
Proof.
  intros rd buf_n err sd. cbn [upload_loop pbind pcall].
  rewrite exec_Call. fold rd. subst buf_n err sd.
  destruct (fst (handle rd (world st))) as [buf_n err]. cbn [fst snd pbind].
  destruct (is_failure err); [reflexivity |].
  cbn [pbind]. rewrite exec_Call.
  destruct (fst (handle (Send (chunk_request d a buf_n)) (world (after rd st))))
    as [e |]; [reflexivity |].
  destruct (is_EOF err); reflexivity.
Qed.

Lemma upload_loop_trace d a n : forall (st : state) o st',
  exec (upload_loop d a n) st = (o, st') ->
  exists mid,
    trace st' = trace st ++ mid /\ Forall (is_transfer d) mid /\
    chans st' = chans st /\
    match o with
    | Returned _ => True
    | Panicked _ => False
    | Pending => List.length mid = (2 * n)%nat
    end.
Proof.
  induction n as [| n IH]; intros st o st' H.
  - inversion H; subst. exists []. rewrite app_nil_r. auto.
  - rewrite upload_loop_step in H. cbv zeta in H.
    set (rd := Read d UploadBufferSize) in *.
    set (buf_n := fst (fst (handle rd (world st)))) in *.
    set (err := snd (fst (handle rd (world st)))) in *.
    set (sd := Send (chunk_request d a buf_n)) in *.
    assert (Hrd : is_transfer d (EvCall rd)) by (left; reflexivity).
    assert (Hsd : is_transfer d (EvCall sd)) by (right; eexists; reflexivity).
    destruct (is_failure err).
    { inversion H; subst. exists [EvCall rd]. simpl. auto. }
    destruct (fst (handle sd (world (after rd st)))) as [e |].
    { inversion H; subst. exists [EvCall rd; EvCall sd]. simpl.
      rewrite <- app_assoc. auto. }
    destruct (is_EOF err).
    { inversion H; subst. exists [EvCall rd; EvCall sd]. simpl.
      rewrite <- app_assoc. auto. }
    destruct (IH _ _ _ H) as (mid & HT & HF & HC & HO).
    exists (EvCall rd :: EvCall sd :: mid). simpl in HT, HC.
    rewrite HT, <- !app_assoc. simpl. repeat split; auto.
    destruct o; auto. simpl. lia.
Qed.

(** The whole task once the storage has opened the read closer. *)
Lemma exec_upload_opened d fuel a (st : state) :
  fst (handle (Open d (storage a)) (world st)) = None ->
  exec (upload d fuel a) st =
  match exec (upload_loop d a fuel) (after (Open d (storage a)) st) with
  | (Returned r, st1) => (Returned r, after (Close d) st1)
  | (Panicked msg, st1) => (Panicked msg, st1)
  | (Pending, st1) => (Pending, st1)
  end.
Proof.
  intros Hopen. unfold upload. rewrite exec_pbind. unfold bind at 1.
  cbn [pcall exec]. unfold bind at 1. rewrite call_run. cbn [exec ret].
  rewrite Hopen. unfold pdefer. rewrite exec_pbind. unfold bind at 1.
  destruct (exec (upload_loop d a fuel) (after (Open d (storage a)) st))
    as [[r | msg | ] st1]; try reflexivity.
  cbv beta. rewrite exec_pbind. unfold bind. cbn [pcall exec]. unfold bind.
  rewrite call_run. reflexivity.
Qed.

(** C7.  Once the storage has opened the read closer, every execution of
    an upload task that returns, with whatever result, has closed it:
    [Close] is its last call, the calls between opening and closing are
    reads and sends only.  No execution panics, and the only executions
    that have not returned (and not closed) are those whose loop is still
    running after [fuel] iterations. *)
Theorem upload_task_closes_reader d fuel a (st : state) o st' :
  fst (handle (Open d (storage a)) (world st)) = None ->
  exec (upload_task d fuel a) st = (o, st') ->
  exists mid,
    Forall (is_transfer d) mid /\
    match o with
    | Returned _ =>
        trace st' =
        trace st ++ EvCall (Open d (storage a)) :: mid ++ [EvCall (Close d)]
    | Panicked _ => False
    | Pending =>
        trace st' = trace st ++ EvCall (Open d (storage a)) :: mid /\
        List.length mid = (2 * fuel)%nat
    end.
Proof.
  intros Hopen H. rewrite upload_task_upload, exec_upload_opened in H by exact Hopen.
  destruct (exec (upload_loop d a fuel) (after (Open d (storage a)) st))
    as [o1 st1] eqn:E.
  destruct (upload_loop_trace _ _ _ _ _ _ E) as (mid & HT & HF & HC & HO).
  exists mid. split; [exact HF |]. simpl in HT.
  destruct o1 as [r | msg | ]; inversion H; subst; simpl.
  - rewrite HT, <- !app_assoc. reflexivity.
  - exact HO.
  - rewrite HT, <- !app_assoc. auto.
Qed.

(** C9.  A read that yields no bytes together with [io.EOF] is still
    followed by a send: the message carries the dataset's tag and an empty
    payload, and when that send succeeds the loop returns nil.  So a task
    whose first read is such a read sends exactly one message, the empty
    one, and closes. *)
Theorem zero_byte_eof_read_is_sent d a n fuel (st : state) :
  let rd := Read d UploadBufferSize in
  let sd := Send (chunk_request d a []) in
  fst (handle rd (world st)) = ([], Some io_EOF) ->
  fst (handle sd (world (after rd st))) = None ->
  exec (upload_task_loop d (S n) a) st = (Returned None, after sd (after rd st)) /\
  sends (trace (after sd (after rd st))) = sends (trace st) ++ [chunk_request d a []] /\
  trainerv1.Request (chunk_request d a []) =
  match d with
  | Download => trainerv1.TrainRequest_TrainMlpRequest []
  | NetworkTopology => trainerv1.TrainRequest_TrainGnnRequest []
  end /\
  forall st0 : state,
    fst (handle (Open d (storage a)) (world st0)) = None ->
    after (Open d (storage a)) st0 = st ->
    exec (upload_task d (S fuel) a) st0 =
    (Returned None, after (Close d) (after sd (after rd st))).
Proof.
  intros rd sd Hrd Hsd.
  assert (Hloop : forall m, exec (upload_loop d a (S m)) st =
                            (Returned None, after sd (after rd st))).
  { intros m. rewrite upload_loop_step. cbv zeta. fold rd.
    change (fst (handle rd (world st)))
      with (fst (handle rd (world st)) : list byte * option error).
    rewrite Hrd. cbn [fst snd is_failure is_EOF]. fold sd.
    change (fst (handle sd (world (after rd st))))
      with (fst (handle sd (world (after rd st))) : option error).
    rewrite Hsd. reflexivity. }
  split; [rewrite upload_task_loop_upload; apply Hloop |].
  split.
  { simpl. rewrite <- app_assoc, sends_app. reflexivity. }
  split; [destruct d; reflexivity |].
  intros st0 Hopen Hst.
  rewrite upload_task_upload, exec_upload_opened by exact Hopen.
  rewrite Hst, Hloop. reflexivity.
Qed.

End UploadTask.

(** ** The errgroup of a training round *)

Lemma returns_pbind {A B : Type} (p : prog A) (f : A -> prog B) (r : B) :
  returns r (pbind p f) -> exists x, returns x p /\ returns r (f x).
Proof.
  induction p as [a | | c k IH]; simpl; intros H.
  - exists a. split; [reflexivity | exact H].
  - contradiction.
  - destruct H as [x Hx]. destruct (IH _ Hx) as (y & Hy & Hr).
    exists y. split; [exists x; exact Hy | exact Hr].
Qed.

Lemma errOnce_first_error kept r0 rs :
  errOnce (errOnce kept r0) (first_error rs) = errOnce kept (first_error (r0 :: rs)).
Proof. destruct kept, r0; reflexivity. Qed.

Section ErrgroupSpec.

Context {C : Collaborators}.

Lemma exec_spec {A : Type} (p : prog A) : forall (st : state) o st',
  exec p st = (o, st') ->
  exists evs,
    trace st' = trace st ++ evs /\ chans st' = chans st /\ exits evs = [] /\
    match o with
    | Returned r => returns r p
    | Panicked _ => False
    | Pending => True
    end.
Proof.
  induction p as [a | | c k IH]; intros st o st' H.
  - inversion H; subst. exists []. rewrite app_nil_r.
    repeat split; auto.
  - inversion H; subst. exists []. rewrite app_nil_r. repeat split; auto.
  - rewrite exec_Call in H.
    destruct (IH _ _ _ _ H) as (evs & HT & HC & HE & HO).
    exists (EvCall c :: evs). simpl in HT, HC. rewrite HT, <- app_assoc.
    repeat split; auto.
    destruct o; auto. simpl. eexists; exact HO.
Qed.

Lemma finish_spec t g kept (st : state) o st' :
  finish t g kept st = (o, st') ->
  exists evs,
    trace st' = trace st ++ evs /\ chans st' = chans st /\
    match o with
    | Returned r =>
        match g with
        | Running p =>
            exists r0, returns r0 p /\ exits evs = [(t, r0)] /\ r = errOnce kept r0
        | Exited => exits evs = [] /\ r = kept
        end
    | Panicked _ => False
    | Pending => (exists p, g = Running p) /\ exits evs = []
    end.
Proof.
  intros H. destruct g as [p |]; simpl in H.
  - unfold bind in H. destruct (exec p st) as [o1 st1] eqn:E.
    destruct (exec_spec _ _ _ _ E) as (evs & HT & HC & HE & HO).
    destruct o1 as [r0 | msg | ]; [| contradiction |].
    + inversion H; subst. exists (evs ++ [EvGoExit t r0]). simpl.
      rewrite HT, <- app_assoc. repeat split; auto.
      exists r0. rewrite exits_app, HE. auto.
    + inversion H; subst. exists evs. repeat split; eauto.
  - inversion H; subst. exists []. rewrite app_nil_r. auto.
Qed.

Lemma errgroup_Wait_exited sched kept :
  errgroup_Wait sched (Exited, Exited) kept = ret kept.
Proof. destruct sched; reflexivity. Qed.

Lemma errgroup_Wait_nil gs kept :
  errgroup_Wait [] gs kept =
  (kept1 <- finish GoDownload (fst gs) kept ;;
   finish GoNetworkTopology (snd gs) kept1).
Proof. destruct gs as [[p1 |] [p2 |]]; reflexivity. Qed.

Lemma errgroup_Wait_cons t sched gs kept :
  running gs <> [] ->
  errgroup_Wait (t :: sched) gs kept =
  match pick t gs with
  | Exited => errgroup_Wait sched gs kept
  | Running (Ret r) =>
      log (EvGoExit t r) ;;;
      errgroup_Wait sched (put t Exited gs) (errOnce kept r)
  | Running Diverge => pending
  | Running (Call c k) =>
      r <- call_ c ;;
      errgroup_Wait sched (put t (Running (k r)) gs) kept
  end.
Proof.
  destruct gs as [[p1 |] [p2 |]]; try reflexivity.
  intros H. exfalso. apply H. reflexivity.
Qed.

Lemma running_put_exited t p gs :
  pick t gs = Running p ->
  Permutation (t :: running (put t Exited gs)) (running gs).
Proof.
  destruct gs as [[p1 |] [p2 |]], t; simpl; intros H; try discriminate;
    try apply Permutation_refl. apply perm_swap.
Qed.

Lemma running_put_running t p q gs :
  pick t gs = Running p -> running (put t (Running q) gs) = running gs.
Proof.
  destruct gs as [[p1 |] [p2 |]], t; simpl; intros H; try discriminate;
    reflexivity.
Qed.

Lemma pick_put t t' g gs :
  pick t' (put t g gs) =
  match t, t' with
  | GoDownload, GoDownload | GoNetworkTopology, GoNetworkTopology => g
  | _, _ => pick t' gs
  end.
Proof. destruct t, t'; reflexivity. Qed.

Lemma running_pick t p gs : pick t gs = Running p -> In t (running gs).
Proof.
  destruct gs as [[p1 |] [p2 |]], t; simpl; intros H; try discriminate; auto.
Qed.

Lemma running_put_exited_In t t1 gs :
  In t1 (running (put t Exited gs)) -> In t1 (running gs) /\ t1 <> t.
Proof.
  destruct gs as [[p1 |] [p2 |]], t, t1; simpl; intuition discriminate.
Qed.

(** What [Wait] hands back, whatever the schedule: every goroutine that
    was running has exited exactly once, with a value its program can
    return, and the error kept is the first non-nil one in the order of
    the exits.  [Wait] never panics, and it has not returned only if some
    goroutine has not exited. *)
Lemma errgroup_Wait_spec sched : forall gs kept (st : state) o st',
  errgroup_Wait sched gs kept st = (o, st') ->
  exists evs,
    trace st' = trace st ++ evs /\ chans st' = chans st /\
    match o with
    | Returned r =>
        r = errOnce kept (first_error (map snd (exits evs))) /\
        Permutation (map fst (exits evs)) (running gs) /\
        (forall t x, In (t, x) (exits evs) ->
                     exists p, pick t gs = Running p /\ returns x p)
    | Panicked _ => False
    | Pending =>
        exists t, In t (running gs) /\ ~ In t (map fst (exits evs))
    end.
Proof.
  induction sched as [| t sched IH]; intros gs kept st o st' H.
  - rewrite errgroup_Wait_nil in H. unfold bind in H.
    destruct (finish GoDownload (fst gs) kept st) as [o1 st1] eqn:E1.
    destruct (finish_spec _ _ _ _ _ _ E1) as (evs1 & HT1 & HC1 & HO1).
    destruct o1 as [k1 | msg | ]; [| contradiction |].
    2:{ inversion H; subst. exists evs1. repeat split; auto.
        destruct HO1 as [[p Hp] HX]. exists GoDownload. rewrite HX.
        split; [| intros []]. unfold running. rewrite Hp. simpl. auto. }
    destruct (finish_spec _ _ _ _ _ _ H) as (evs2 & HT2 & HC2 & HO2).
    exists (evs1 ++ evs2). rewrite HT2, HT1, app_assoc, HC2, HC1.
    split; [reflexivity |]. split; [reflexivity |].
    destruct o as [r | msg | ]; [| contradiction |].
    + rewrite exits_app. unfold running.
      destruct gs as [[p1 |] [p2 |]]; simpl in *.
      * destruct HO1 as (r1 & R1 & X1 & K1). destruct HO2 as (r2 & R2 & X2 & K2).
        rewrite X1, X2. simpl. subst.
        split; [destruct kept, r1, r2; reflexivity |].
        split; [apply Permutation_refl |].
        intros t x [Hx | [Hx | []]]; inversion Hx; subst; simpl; eauto.
      * destruct HO1 as (r1 & R1 & X1 & K1). destruct HO2 as (X2 & K2).
        rewrite X1, X2. simpl. subst. split; [destruct kept, r1; reflexivity |].
        split; [apply Permutation_refl |].
        intros t x [Hx | []]; inversion Hx; subst; simpl; eauto.
      * destruct HO1 as (X1 & K1). destruct HO2 as (r2 & R2 & X2 & K2).
        rewrite X1, X2. simpl. subst. split; [destruct kept, r2; reflexivity |].
        split; [apply Permutation_refl |].
        intros t x [Hx | []]; inversion Hx; subst; simpl; eauto.
      * destruct HO1 as (X1 & K1). destruct HO2 as (X2 & K2).
        rewrite X1, X2. simpl. subst. split; [destruct kept; reflexivity |].
        split; [apply Permutation_refl |]. intros t x [].
    + destruct HO2 as [[p Hp] HX]. exists GoNetworkTopology.
      rewrite exits_app, HX, app_nil_r. split.
      * unfold running. rewrite Hp. apply in_or_app. right. simpl. auto.
      * destruct (fst gs); [destruct HO1 as (r0 & _ & -> & _) | destruct HO1 as (-> & _)];
          simpl; intuition discriminate.
  - destruct (running gs) as [| t0 l0] eqn:Erun.
    { assert (gs = (Exited, Exited)) as ->.
      { destruct gs as [[p1 |] [p2 |]]; try discriminate; reflexivity. }
      rewrite errgroup_Wait_exited in H. inversion H; subst.
      exists []. rewrite app_nil_r. simpl. repeat split; auto.
      - destruct kept; reflexivity.
      - intros t1 x []. }
    rewrite errgroup_Wait_cons in H by (rewrite Erun; discriminate).
    rewrite <- Erun. clear Erun t0 l0.
    destruct (pick t gs) as [[r0 | | c k] |] eqn:Epick.
    + unfold bind in H. simpl in H.
      destruct (IH _ _ _ _ _ H) as (evs & HT & HC & HO).
      exists (EvGoExit t r0 :: evs). simpl in HT, HC.
      rewrite HT, <- app_assoc. repeat split; auto.
      destruct o as [r | msg | ]; auto.
      * destruct HO as (HR & HP & HI).
        simpl. split; [rewrite HR; apply errOnce_first_error |].
        split.
        -- eapply Permutation_trans; [| apply (running_put_exited _ _ _ Epick)].
           constructor. exact HP.
        -- intros t1 x [Hx | Hx].
           ++ inversion Hx; subst. exists (Ret x). split; [exact Epick | reflexivity].
           ++ destruct (HI _ _ Hx) as (p & Hp & Hr). rewrite pick_put in Hp.
              destruct t, t1; try discriminate; eauto.
      * destruct HO as (t1 & Hin & Hout).
        apply running_put_exited_In in Hin. destruct Hin as [Hin Hne].
        exists t1. split; [exact Hin |]. simpl. intros [Heq | Hx]; auto.
    + inversion H; subst. exists []. rewrite app_nil_r. repeat split; auto.
      exists t. split; [eapply running_pick; exact Epick | intros []].
    + unfold bind in H. rewrite call_run in H.
      destruct (IH _ _ _ _ _ H) as (evs & HT & HC & HO).
      exists (EvCall c :: evs). simpl in HT, HC.
      rewrite HT, <- app_assoc. repeat split; auto.
      destruct o as [r | msg | ]; auto.
      * destruct HO as (HR & HP & HI).
        simpl. split; [exact HR |]. split.
        -- rewrite (running_put_running _ _ _ _ Epick) in HP. exact HP.
        -- intros t1 x Hx. destruct (HI _ _ Hx) as (p & Hp & Hr).
           rewrite pick_put in Hp.
           destruct t, t1; try (eexists; split; [exact Hp | exact Hr]);
             inversion Hp; subst; (eexists; split; [exact Epick |]);
             simpl; eexists; exact Hr.
      * rewrite (running_put_running _ _ _ _ Epick) in HO. exact HO.
    + destruct (IH _ _ _ _ _ H) as (evs & HT & HC & HO).
      exists evs. auto.
Qed.

End ErrgroupSpec.

(** ** The closures of a round and their upload tasks *)

Section Closures.

Context {C : Collaborators}.









End Closures.

Section RoundTasks.

Context {C : Collaborators}.
Variable fuel : nat.



End RoundTasks.

(** ** The training round *)

Section TrainingRound.

Context {C : Collaborators}.
Variable fuel : nat.

(** [train] once the trainer has opened the stream. *)
Lemma train_run a client sched (st : state) :
  let tr := Train client (config.Trainer_UploadTimeout (config a)) in
  trainerClient a = Some client ->
  fst (handle tr (world st)) = None ->
  train fuel a sched st =
  match errgroup_Wait sched (uploads fuel a) None (after tr st) with
  | (Returned (Some e), st2) => (Returned (Some e), after cancel st2)
  | (Returned None, st2) =>
      (Returned (fst (handle CloseAndRecv (world st2))),
       after cancel (after CloseAndRecv st2))
  | (Panicked msg, st2) => (Panicked msg, after cancel st2)
  | (Pending, st2) => (Pending, st2)
  end.
Proof.
  intros tr Hc Hopen. unfold train, defer. rewrite Hc.
  unfold bind at 1. rewrite call_run. fold tr. rewrite Hopen.
  rewrite train_go_download_eq, train_go_network_topology_eq.
  fold (uploads fuel a). unfold bind at 1.
  destruct (errgroup_Wait sched (uploads fuel a) None (after tr st))
    as [[[e |] | msg | ] st2]; cbn [ret]; rewrite ?call_run; try reflexivity.
  unfold bind. rewrite call_run.
  destruct (fst (handle CloseAndRecv (world st2))) as [e |] eqn:E;
    cbn [ret]; rewrite call_run; reflexivity.
Qed.


Lemma train_go_returns t a x :
  returns x (train_go t fuel a) ->
  x = None \/
  exists e, x = Some (wrapped (stage t) e) /\
            returns (Some e) (upload_task (dataset_of t) fuel a).
Proof.
  intros H. apply returns_pbind in H. destruct H as ([e |] & Hy & Hx).
  - right. exists e. simpl in Hx. subst x. split; [reflexivity |].
    rewrite upload_task_upload. exact Hy.
  - left. simpl in Hx. auto.
Qed.

Lemma uploads_within a t :
  goroutine_calls (fun c => within_uploads (EvCall c)) (pick t (uploads fuel a)).
Proof.
  assert (H : forall t', calls_satisfy (fun c => within_uploads (EvCall c))
                                       (train_go t' fuel a)).
  { intros t'. eapply calls_satisfy_weaken; [| apply train_go_calls].
    intros c [Hc | [Hc | [[m Hc] | Hc]]]; subst; split; reflexivity. }
  destruct t; [exact (H GoDownload) | exact (H GoNetworkTopology)].
Qed.

Lemma count_none (f : event -> bool) evs :
  Forall (fun ev => f ev = false) evs -> count f evs = 0%nat.
Proof.
  unfold count. induction 1 as [| ev l Hev _ IH]; simpl; [reflexivity |].
  rewrite Hev. exact IH.
Qed.

(** The round as a whole: the uploads, then what follows them. *)
Lemma train_spec a client sched (st : state) o st' :
  let tr := Train client (config.Trainer_UploadTimeout (config a)) in
  trainerClient a = Some client ->
  fst (handle tr (world st)) = None ->
  train fuel a sched st = (o, st') ->
  exists og evs st2,
    errgroup_Wait sched (uploads fuel a) None (after tr st) = (og, st2) /\
    trace st2 = trace st ++ EvCall tr :: evs /\
    Forall within_uploads evs /\
    match og with
    | Returned kept =>
        kept = first_error (map snd (exits evs)) /\
        Permutation (map fst (exits evs)) [GoDownload; GoNetworkTopology] /\
        (forall t x, In (t, x) (exits evs) ->
           x = None \/
           exists e, x = Some (wrapped (stage t) e) /\
                     returns (Some e) (upload_task (dataset_of t) fuel a)) /\
        match kept with
        | Some e => o = Returned (Some e) /\ st' = after cancel st2
        | None =>
            o = Returned (fst (handle CloseAndRecv (world st2))) /\
            st' = after cancel (after CloseAndRecv st2)
        end
    | Panicked _ => False
    | Pending =>
        o = Pending /\ st' = st2 /\
        exists t, ~ In t (map fst (exits evs))
    end.
Proof.
  intros tr Hc Hopen H. rewrite (train_run a client sched st Hc Hopen) in H.
  fold tr in H.
  destruct (errgroup_Wait sched (uploads fuel a) None (after tr st))
    as [og st2] eqn:E.
  destruct (errgroup_Wait_spec _ _ _ _ _ _ E) as (evs & HT & _ & HO).
  assert (HW : emits within_uploads (errgroup_Wait sched (uploads fuel a) None)).
  { apply emits_errgroup_Wait.
    - intros; split; reflexivity.
    - apply (uploads_within a GoDownload).
    - apply (uploads_within a GoNetworkTopology). }
  destruct (HW _ _ _ E) as (evs' & HT' & HF).
  assert (evs' = evs) as -> by (rewrite HT in HT'; eapply app_inv_head; eauto).
  exists og, evs, st2. split; [reflexivity |].
  split; [rewrite HT; simpl; rewrite <- app_assoc; reflexivity |].
  split; [exact HF |].
  destruct og as [kept | msg | ]; [| contradiction |].
  - destruct HO as (HK & HP & HI). simpl in HK.
    split; [exact HK |]. split; [exact HP |]. split.
    + intros t x Hx. destruct (HI _ _ Hx) as (p & Hp & Hr).
      destruct t; simpl in Hp; inversion Hp; subst; apply train_go_returns, Hr.
    + destruct kept as [e |]; inversion H; subst; auto.
  - inversion H; subst. destruct HO as (t & _ & Hout). eauto.
Qed.

Lemma count_app f l1 l2 : count f (l1 ++ l2) = (count f l1 + count f l2)%nat.
Proof. unfold count. rewrite filter_app, length_app. reflexivity. Qed.



End TrainingRound.

(** ** Chunking of a dataset *)

Lemma take_drop (n : N) (l : list byte) : take n l ++ drop n l = l.
Proof.
  revert n. induction l as [| x t IH]; intros n; simpl; [reflexivity |].
  destruct (n =? 0)%N; simpl; [reflexivity | rewrite IH; reflexivity].
Qed.

Lemma length_take (n : N) (l : list byte) :
  N.of_nat (List.length (take n l)) = N.min n (N.of_nat (List.length l)).
Proof.
  revert n. induction l as [| x t IH]; intros n; cbn [take List.length].
  - lia.
  - destruct (N.eqb_spec n 0); cbn [List.length]; [lia |].
    rewrite !Nat2N.inj_succ, IH. lia.
Qed.

Lemma length_drop (n : N) (l : list byte) :
  N.of_nat (List.length (drop n l)) = (N.of_nat (List.length l) - n)%N.
Proof.
  revert n. induction l as [| x t IH]; intros n; cbn [drop List.length].
  - lia.
  - destruct (N.eqb_spec n 0); [subst; cbn [List.length]; lia |].
    rewrite Nat2N.inj_succ, IH. lia.
Qed.

Lemma take_short (n : N) (l : list byte) :
  (N.of_nat (List.length l) <= n)%N -> take n l = l /\ drop n l = [].
Proof.
  revert n. induction l as [| x t IH]; intros n H; cbn [take drop]; [auto |].
  cbn [List.length] in H. rewrite Nat2N.inj_succ in H.
  destruct (N.eqb_spec n 0); [lia |].
  destruct (IH (N.pred n)) as [-> ->]; [lia | auto].
Qed.

(** [chunks] has the shape the specification describes. *)
Lemma chunks_chunked (size : N) (k : nat) : forall (r : N) (data : list byte),
  (0 < size)%N -> (r < size)%N ->
  N.of_nat (List.length data) = (N.of_nat k * size + r)%N ->
  chunked size (N.of_nat k) r data (chunks size k data).
Proof.
  induction k as [| k IH]; intros r data Hsize Hr Hlen.
  - simpl in Hlen. destruct data as [| x t].
    + exists [], []. simpl in *. subst r. simpl. repeat split; auto.
    + exists [], (x :: t). simpl chunks.
      destruct (N.ltb_spec 0 r); [| simpl in Hlen; lia].
      simpl. repeat split; auto.
  - simpl chunks.
    assert (Hd : N.of_nat (List.length (drop size data)) = (N.of_nat k * size + r)%N).
    { rewrite length_drop. lia. }
    destruct (IH r (drop size data) Hsize Hr Hd)
      as (fulls & partial & HP & HK & HF & HL & HC).
    exists (take size data :: fulls), partial. rewrite HP.
    repeat split; auto.
    + simpl. lia.
    + constructor; [rewrite length_take; lia | exact HF].
    + simpl. rewrite <- app_assoc, HC. apply take_drop.
Qed.

(** ** Upload tasks against the simulated storage *)

Lemma UploadBufferSize_pos : (0 < UploadBufferSize)%N.
Proof. reflexivity. Qed.

Lemma Dataset_chunk_request d a (l : list (list byte)) :
  map trainerv1.Dataset (map (chunk_request d a) l) = l.
Proof.
  induction l as [| x l IH]; simpl; [reflexivity |].
  rewrite IH. destruct d; reflexivity.
Qed.

Section Simulated.

#[local] Existing Instance sim.collaborators.

Variable d : dataset.
Variable a : announcer.

Lemma sim_unread_advance rest (w : sim.env) :
  sim.unread d (sim.advance d rest w) = rest.
Proof. destruct d; reflexivity. Qed.

Lemma sim_quiet_advance rest (w : sim.env) :
  sim.quiet w -> sim.quiet (sim.advance d rest w).
Proof. intros H c. destruct d; apply H. Qed.

Lemma sim_eof_advance rest (w : sim.env) :
  sim.eof_with_data (sim.advance d rest w) = sim.eof_with_data w.
Proof. destruct d; reflexivity. Qed.

(** A read that reports end-of-stream is the last one; its bytes are sent. *)
Lemma sim_step_last n (st : state) buf_n w1 :
  handle (Read d UploadBufferSize) (world st) = ((buf_n, Some io_EOF), w1) ->
  sim.quiet w1 ->
  exists st',
    exec (upload_loop d a (S n)) st = (Returned None, st') /\
    sends (trace st') = sends (trace st) ++ [chunk_request d a buf_n].
Proof.
  intros Hrd Hq. rewrite upload_loop_step. cbv zeta.
  unfold after at 1 2 3. rewrite Hrd. cbn [fst snd is_failure is_EOF world].
  change (handle (Send (chunk_request d a buf_n)) w1)
    with (sim.fail w1 (Send (chunk_request d a buf_n)), w1).
  rewrite Hq. cbn [fst]. eexists. split; [reflexivity |].
  unfold after. cbn [trace]. rewrite <- app_assoc, sends_app. reflexivity.
Qed.

(** A read that does not is followed by the send and another iteration. *)
Lemma sim_step_more n (st : state) buf_n w1 :
  handle (Read d UploadBufferSize) (world st) = ((buf_n, None), w1) ->
  sim.quiet w1 ->
  exists st1,
    exec (upload_loop d a (S n)) st = exec (upload_loop d a n) st1 /\
    world st1 = w1 /\
    sends (trace st1) = sends (trace st) ++ [chunk_request d a buf_n].
Proof.
  intros Hrd Hq. rewrite upload_loop_step. cbv zeta.
  unfold after at 1 2 3. rewrite Hrd. cbn [fst snd is_failure is_EOF world].
  change (handle (Send (chunk_request d a buf_n)) w1)
    with (sim.fail w1 (Send (chunk_request d a buf_n)), w1).
  rewrite Hq. cbn [fst]. eexists. split; [reflexivity |].
  unfold after. cbn [trace world]. rewrite Hrd. cbn [snd].
  change (handle (Send (chunk_request d a buf_n)) w1)
    with (sim.fail w1 (Send (chunk_request d a buf_n)), w1).
  split; [reflexivity |]. rewrite <- app_assoc, sends_app. reflexivity.
Qed.

Lemma sim_read (w : sim.env) :
  sim.quiet w ->
  @handle sim.collaborators (Read d UploadBufferSize) w =
  let chunk := take UploadBufferSize (sim.unread d w) in
  let rest := drop UploadBufferSize (sim.unread d w) in
  if sim.eof_with_data w then
    ((chunk, match rest with [] => Some io_EOF | _ => None end),
     sim.advance d rest w)
  else
    match sim.unread d w with
    | [] => (([], Some io_EOF), w)
    | _ => ((chunk, None), sim.advance d rest w)
    end.
Proof.
  intros Hq. change (@handle sim.collaborators (Read d UploadBufferSize) w)
    with (sim.read d UploadBufferSize w).
  unfold sim.read. rewrite Hq. reflexivity.
Qed.

(** A storage that reports end-of-stream on a read of its own. *)
Lemma sim_loop_separate_eof (k : nat) : forall (data : list byte) (r : N) n (st : state),
  sim.quiet (world st) ->
  sim.eof_with_data (world st) = false ->
  sim.unread d (world st) = data ->
  N.of_nat (List.length data) = (N.of_nat k * UploadBufferSize + r)%N ->
  (r < UploadBufferSize)%N ->
  (k + 2 <= n)%nat ->
  exists st',
    exec (upload_loop d a n) st = (Returned None, st') /\
    sends (trace st') =
    sends (trace st) ++
    map (chunk_request d a) (chunks UploadBufferSize k data ++ [[]]).
Proof.
  induction k as [| k IH]; intros data r n st Hq He Hu Hlen Hr Hn.
  - change (N.of_nat 0 * UploadBufferSize + r)%N with r in Hlen.
    destruct n as [| n]; [lia |]. destruct data as [| x t].
    + destruct (sim_step_last n st [] (world st)) as (st' & HX & HS); auto.
      { rewrite sim_read, He, Hu by exact Hq. reflexivity. }
      exists st'. split; [exact HX |]. rewrite HS. reflexivity.
    + destruct (take_short UploadBufferSize (x :: t)) as [Ht Hd]; [lia |].
      destruct (sim_step_more n st (x :: t)
                  (sim.advance d [] (world st))) as (st1 & HX & HW & HS).
      { rewrite sim_read, He, Hu by exact Hq. cbv zeta. rewrite Ht, Hd.
        reflexivity. }
      { apply sim_quiet_advance, Hq. }
      destruct n as [| n]; [lia |].
      destruct (sim_step_last n st1 [] (world st1)) as (st' & HX' & HS').
      { rewrite sim_read by (rewrite HW; apply sim_quiet_advance, Hq).
        rewrite HW, sim_eof_advance, He, sim_unread_advance. reflexivity. }
      { rewrite HW. apply sim_quiet_advance, Hq. }
      exists st'. split; [rewrite HX; exact HX' |].
      rewrite HS', HS, <- app_assoc. reflexivity.
  - destruct n as [| n]; [lia |].
    assert (Hne : data <> []).
    { pose proof UploadBufferSize_pos. intros ->. cbn [List.length] in Hlen. lia. }
    destruct (sim_step_more n st (take UploadBufferSize data)
                (sim.advance d (drop UploadBufferSize data) (world st)))
      as (st1 & HX & HW & HS).
    { rewrite sim_read, He, Hu by exact Hq. cbv zeta.
      destruct data; [contradiction | reflexivity]. }
    { apply sim_quiet_advance, Hq. }
    destruct (IH (drop UploadBufferSize data) r n st1) as (st' & HX' & HS').
    + rewrite HW. apply sim_quiet_advance, Hq.
    + rewrite HW, sim_eof_advance. exact He.
    + rewrite HW. apply sim_unread_advance.
    + rewrite length_drop. lia.
    + exact Hr.
    + lia.
    + exists st'. split; [rewrite HX; exact HX' |].
      rewrite HS', HS, <- app_assoc. reflexivity.
Qed.

(** A storage that reports end-of-stream together with its last bytes. *)
Lemma sim_loop_eof_with_data (k : nat) : forall (data : list byte) (r : N) n (st : state),
  sim.quiet (world st) ->
  sim.eof_with_data (world st) = true ->
  sim.unread d (world st) = data ->
  N.of_nat (List.length data) = (N.of_nat k * UploadBufferSize + r)%N ->
  (r < UploadBufferSize)%N ->
  (k + 2 <= n)%nat ->
  exists st',
    exec (upload_loop d a n) st = (Returned None, st') /\
    sends (trace st') =
    sends (trace st) ++
    map (chunk_request d a)
        match data with
        | [] => [[]]
        | _ => chunks UploadBufferSize k data
        end.
Proof.
  induction k as [| k IH]; intros data r n st Hq He Hu Hlen Hr Hn.
  - change (N.of_nat 0 * UploadBufferSize + r)%N with r in Hlen.
    destruct n as [| n]; [lia |].
    destruct (take_short UploadBufferSize data) as [Ht Hd]; [lia |].
    destruct (sim_step_last n st data (sim.advance d [] (world st)))
      as (st' & HX & HS).
    { rewrite sim_read, He, Hu by exact Hq. cbv zeta. rewrite Ht, Hd.
      reflexivity. }
    { apply sim_quiet_advance, Hq. }
    exists st'. split; [exact HX |]. rewrite HS.
    destruct data; reflexivity.
  - destruct n as [| n]; [lia |].
    assert (Hne : data <> []).
    { pose proof UploadBufferSize_pos. intros ->. cbn [List.length] in Hlen. lia. }
    assert (Hd : N.of_nat (List.length (drop UploadBufferSize data))
                 = (N.of_nat k * UploadBufferSize + r)%N).
    { rewrite length_drop. lia. }
    destruct (drop UploadBufferSize data) as [| y rest] eqn:Edrop.
    + (* the last full chunk comes with end-of-stream *)
      assert (k = 0%nat) as ->.
      { pose proof UploadBufferSize_pos. cbn [List.length] in Hd. nia. }
      destruct (sim_step_last n st (take UploadBufferSize data)
                  (sim.advance d [] (world st))) as (st' & HX & HS).
      { rewrite sim_read, He, Hu by exact Hq. cbv zeta. rewrite Edrop.
        reflexivity. }
      { apply sim_quiet_advance, Hq. }
      exists st'. split; [exact HX |]. rewrite HS.
      destruct data; [contradiction |]. cbn [chunks]. rewrite Edrop.
      reflexivity.
    + destruct (sim_step_more n st (take UploadBufferSize data)
                  (sim.advance d (y :: rest) (world st)))
        as (st1 & HX & HW & HS).
      { rewrite sim_read, He, Hu by exact Hq. cbv zeta. rewrite Edrop.
        reflexivity. }
      { apply sim_quiet_advance, Hq. }
      destruct (IH (y :: rest) r n st1) as (st' & HX' & HS').
      * rewrite HW. apply sim_quiet_advance, Hq.
      * rewrite HW, sim_eof_advance. exact He.
      * rewrite HW. apply sim_unread_advance.
      * exact Hd.
      * exact Hr.
      * lia.
      * exists st'. split; [rewrite HX; exact HX' |].
        rewrite HS', HS, <- app_assoc.
        destruct data; [contradiction |]. cbn [chunks]. rewrite Edrop.
        reflexivity.
Qed.

End Simulated.

(** C1, as the code has it.  Against the simulated storage, whose reader
    hands back on every read the next [min (len buf) unread] bytes (it never
    reads short) and reports end-of-stream in one of the two ways
    [io.Reader] allows, and with every call answered without error: for a
    dataset of [k * UploadBufferSize + r] bytes ([r < UploadBufferSize]) and
    with enough iterations granted, the task returns nil and has sent: when
    end-of-stream is reported by a read of its own, the [k] full chunks, the
    partial chunk if [r > 0], and then one message with an empty payload;
    when end-of-stream comes with the last bytes, the [k] full chunks and
    the partial chunk if [r > 0] and nothing more, except that an empty
    dataset still yields one message with an empty payload.  The chunks, in
    the order sent, make up the dataset. *)
Theorem upload_sends_one_message_per_read
        (d : dataset) (k r : N) (data : list byte) (w : sim.env) (fuel : nat) :
  sim.quiet w ->
  sim.unread d w = data ->
  N.of_nat (List.length data) = (k * UploadBufferSize + r)%N ->
  (r < UploadBufferSize)%N ->
  (N.to_nat k + 2 <= fuel)%nat ->
  exists body,
    chunked UploadBufferSize k r data body /\
    upload_payloads d fuel w =
    (Returned None,
     if sim.eof_with_data w
     then match data with [] => [[]] | _ => body end
     else body ++ [[]]).
Proof.
  intros Hq Hu Hlen Hr Hfuel.
  exists (chunks UploadBufferSize (N.to_nat k) data).
  assert (Hlen' : N.of_nat (List.length data)
                  = (N.of_nat (N.to_nat k) * UploadBufferSize + r)%N)
    by (rewrite N2Nat.id; exact Hlen).
  split.
  { rewrite <- (N2Nat.id k) at 1.
    apply chunks_chunked; [reflexivity | exact Hr | exact Hlen']. }
  unfold upload_payloads. rewrite upload_task_upload.
  assert (Hopen : fst (@handle sim.collaborators (Open d (storage sim.ann))
                               (world (sim.init w))) = None).
  { change (sim.fail w (Open d (storage sim.ann)) = None). apply Hq. }
  rewrite (@exec_upload_opened sim.collaborators) by exact Hopen.
  set (st0 := @after sim.collaborators (Open d (storage sim.ann)) (sim.init w)).
  assert (Hw0 : world st0 = w) by reflexivity.
  assert (Ht0 : sends (trace st0) = []) by reflexivity.
  destruct (sim.eof_with_data w) eqn:He.
  - destruct (sim_loop_eof_with_data d sim.ann (N.to_nat k) data r fuel st0)
      as (st' & HX & HS); try (rewrite Hw0); auto.
    rewrite HX. cbn [after trace]. f_equal.
    rewrite sends_app, HS, Ht0. cbn [sends]. rewrite app_nil_r.
    apply Dataset_chunk_request.
  - destruct (sim_loop_separate_eof d sim.ann (N.to_nat k) data r fuel st0)
      as (st' & HX & HS); try (rewrite Hw0); auto.
    rewrite HX. cbn [after trace]. f_equal.
    rewrite sends_app, HS, Ht0. cbn [sends]. rewrite app_nil_r.
    apply Dataset_chunk_request.
Qed.

Lemma upload_sends_one_message_per_read_witness :
  exists body,
    chunked UploadBufferSize 0 3 [x01; x02; x03] body /\
    upload_payloads Download 2 (sim.healthy [x01; x02; x03] [] false) =
    (Returned None, body ++ [[]]).
Proof.
  apply (upload_sends_one_message_per_read
           Download 0 3 [x01; x02; x03]
           (sim.healthy [x01; x02; x03] [] false) 2).
  - intros c. reflexivity.
  - reflexivity.
  - reflexivity.
  - reflexivity.
  - simpl. lia.
Defined.

(** C1 as stated fails.  Three bytes held by a file-like storage are sent
    as two messages, the second one empty; and an empty dataset is sent as
    one empty message, also when end-of-stream comes with the data. *)
Lemma upload_sends_empty_trailing_message :
  (exists sent,
      upload_payloads Download 2 (sim.healthy [x01; x02; x03] [] false)
      = (Returned None, sent) /\
      ~ chunked UploadBufferSize 0 3 [x01; x02; x03] sent) /\
  (exists sent,
      upload_payloads NetworkTopology 2 (sim.healthy [] [] true)
      = (Returned None, sent) /\
      ~ chunked UploadBufferSize 0 0 [] sent).
Proof.
  split.
  - exists [[x01; x02; x03]; []]. split; [reflexivity |].
    intros (fulls & partial & HP & HK & _).
    destruct fulls; [| discriminate]. discriminate.
  - exists [[]]. split; [reflexivity |].
    intros (fulls & partial & HP & HK & _).
    destruct fulls; [| discriminate]. discriminate.
Qed.

(** ** The properties at work on concrete runs *)

Lemma New_registers_exactly_once_witness :
  fst (@handle sim.collaborators (registration sim.ann) (world run.boot)) = None /\
  exists st1,
    New sim.cfg 0%nat 0%nat [WithTrainerClient 0%nat] run.boot
    = (Returned (Some sim.ann, None), st1) /\
    trace st1 = trace run.boot ++ [EvCall (registration sim.ann)] /\
    count is_registration [EvCall (registration sim.ann)] = 1%nat /\
    count is_activity [EvCall (registration sim.ann)] = 0%nat /\
    forall fuel evs o st2,
      Serve fuel sim.ann evs st1 = (o, st2) ->
      exists later,
        trace st2 = trace run.boot ++ EvCall (registration sim.ann) :: later /\
        count is_registration later = 0%nat.
Proof.
  split; [reflexivity |].
  apply (@New_registers_exactly_once sim.collaborators sim.cfg 0%nat 0%nat
           [WithTrainerClient 0%nat] run.boot).
  reflexivity.
Defined.

Lemma New_registration_failure_witness :
  fst (@handle sim.collaborators (registration sim.ann) (world run.boot_unregistered))
  = Some (opaque "manager unreachable") /\
  exists st1,
    New sim.cfg 0%nat 0%nat [WithTrainerClient 0%nat] run.boot_unregistered
    = (Returned (None, Some (opaque "manager unreachable")), st1) /\
    trace st1 = trace run.boot_unregistered ++ [EvCall (registration sim.ann)] /\
    count is_activity [EvCall (registration sim.ann)] = 0%nat.
Proof.
  split; [reflexivity |].
  apply (@New_registration_failure sim.collaborators sim.cfg 0%nat 0%nat
           [WithTrainerClient 0%nat] run.boot_unregistered
           (opaque "manager unreachable")).
  reflexivity.
Defined.


(** Which error is first depends on the schedule alone. *)
Example train_first_error_follows_exit_order :
  fst (@train sim.collaborators 2 sim.ann [] (run.serving sim.uploads_fail))
  = Returned (Some (wrapped "upload download" (opaque "disk failure"))) /\
  fst run.both_fail
  = Returned (Some (wrapped "upload network topology" (opaque "permission denied"))).
Proof. split; reflexivity. Qed.



Lemma upload_task_closes_reader_witness :
  fst (@handle sim.collaborators (Open Download (storage sim.ann))
         (world (run.serving sim.send_fails))) = None /\
  run.send_fails = (Returned (Some (opaque "stream reset")), snd run.send_fails) /\
  exists mid,
    Forall (is_transfer Download) mid /\
    trace (snd run.send_fails) =
    trace (run.serving sim.send_fails) ++
    EvCall (Open Download (storage sim.ann)) :: mid ++ [EvCall (Close Download)].
Proof.
  split; [reflexivity |]. split; [reflexivity |].
  apply (@upload_task_closes_reader sim.collaborators Download 3 sim.ann
           (run.serving sim.send_fails)
           (Returned (Some (opaque "stream reset")))
           (snd run.send_fails)); reflexivity.
Defined.

Lemma announceToTrainer_swallows_round_errors_witness :
  0 < config.Trainer_Interval (config sim.ann) /\
  run.failed_round =
  (Returned (Some (wrapped "upload download" (opaque "stream reset"))),
   snd run.failed_round) /\
  announceToTrainer 3 sim.ann (TickFires [] :: run.offers)
                    (run.serving sim.send_fails) =
  announceToTrainer 3 sim.ann run.offers
    (emit (EvError (wrapped "upload download" (opaque "stream reset")))
          (snd run.failed_round)).
Proof.
  split; [reflexivity |]. split; [reflexivity |].
  destruct (@announceToTrainer_swallows_round_errors sim.collaborators 3 sim.ann
              run.offers (run.serving sim.send_fails) eq_refl) as (Hfail & _).
  apply Hfail. reflexivity.
Defined.

Lemma zero_byte_eof_read_is_sent_witness :
  fst (@handle sim.collaborators (Read Download UploadBufferSize)
         (world run.opened_empty)) = ([], Some io_EOF) /\
  fst (@handle sim.collaborators (Send (chunk_request Download sim.ann []))
         (world (after (Read Download UploadBufferSize) run.opened_empty))) = None /\
  exec (upload_task_loop Download 1 sim.ann) run.opened_empty =
  (Returned None,
   after (Send (chunk_request Download sim.ann []))
         (after (Read Download UploadBufferSize) run.opened_empty)) /\
  map trainerv1.Dataset
      (sends (trace (snd (exec (upload_task Download 1 sim.ann) run.boot)))) = [[]].
Proof.
  split; [reflexivity |]. split; [reflexivity |].
  destruct (@zero_byte_eof_read_is_sent sim.collaborators Download sim.ann
              0%nat 0%nat run.opened_empty eq_refl eq_refl)
    as (Hloop & _ & _ & Htask).
  split; [exact Hloop |].
  rewrite (Htask run.boot eq_refl eq_refl). reflexivity.
Defined.

Lemma Serve_returns_only_nil_witness :
  run.served = (Returned None, snd run.served) /\
  @None error = None /\
  fst (announceToManager sim.ann (run.serving sim.no_failure)) = Returned None /\
  (trainerClient sim.ann = None \/ is_closed (done sim.ann) (snd run.served) = true).
Proof.
  split; [reflexivity |].
  apply (@Serve_returns_only_nil sim.collaborators 3 sim.ann
           (TickFires [] :: run.offers) (run.serving sim.no_failure)
           None (snd run.served)).
  reflexivity.
Defined.


(** * Further properties *)

(** ** What a round, the loop and [Serve] can do *)

Lemma emits_weaken {C : Collaborators} {A : Type} (P Q : event -> Prop) (m : M A) :
  (forall ev, P ev -> Q ev) -> emits P m -> emits Q m.
Proof.
  intros HPQ Hm st o st' H. destruct (Hm _ _ _ H) as (evs & HT & HF).
  exists evs. split; [exact HT |]. eapply Forall_impl; eauto.
Qed.

Lemma upload_call_body_call (t : task) (a : announcer) (c : call) :
  upload_call (dataset_of t) a c -> body_call a c.
Proof. intros H. destruct t; simpl in H; unfold body_call; auto. Qed.

Lemma body_event_loop_event (a : announcer) (ev : event) :
  body_event a ev -> loop_event a ev.
Proof.
  destruct ev; simpl; try contradiction; auto. intros H. right. exact H.
Qed.

Lemma body_event_not_cancel (a : announcer) (ev : event) :
  body_event a ev -> is_call cancel ev = false.
Proof.
  destruct ev as [c | | | |]; simpl; try contradiction; try reflexivity.
  intros [-> | [(client & _ & ->) | [Hu | Hu]]]; try reflexivity;
    destruct Hu as [-> | [-> | [[m ->] | ->]]]; reflexivity.
Qed.

Section Alphabet.

Context {C : Collaborators}.
Variable fuel : nat.

Lemma train_defer a sched :
  train fuel a sched = defer (call_ cancel) (train_body fuel a sched).
Proof. reflexivity. Qed.

Lemma train_go_body_calls t a :
  goroutine_calls (fun c => body_event a (EvCall c)) (Running (train_go t fuel a)).
Proof.
  cbn [goroutine_calls]. eapply calls_satisfy_weaken; [| apply train_go_calls].
  intros c. apply upload_call_body_call.
Qed.

Lemma emits_train_body_events a sched :
  emits (body_event a) (train_body fuel a sched).
Proof.
  unfold train_body. destruct (trainerClient a) as [client |] eqn:Hc;
    [| apply emits_panic].
  apply emits_bind.
  { apply emits_call. right; left. eauto. }
  intros [e |]; [apply emits_ret |].
  apply emits_bind.
  - rewrite train_go_download_eq, train_go_network_topology_eq.
    apply emits_errgroup_Wait; try apply train_go_body_calls.
    intros; exact I.
  - intros [e |]; [apply emits_ret |].
    apply emits_bind; [apply emits_call; left; reflexivity |].
    intros [e |]; apply emits_ret.
Qed.

Lemma emits_train_events a sched : emits (loop_event a) (train fuel a sched).
Proof.
  rewrite train_defer. apply emits_defer.
  - apply emits_call. left. reflexivity.
  - eapply emits_weaken; [apply body_event_loop_event |].
    apply emits_train_body_events.
Qed.

Lemma emits_loop_events a evs :
  emits (loop_event a) (announceToTrainer_loop fuel a evs).
Proof.
  induction evs as [| ev evs IH]; simpl; [apply emits_pending |].
  destruct ev as [sched | |].
  - apply emits_bind; [apply emits_train_events |].
    intros [e |]; (apply emits_bind; [| intros ?; exact IH]);
      [apply emits_log; exact I | apply emits_ret].
  - apply emits_bind; [apply emits_Stop | intros ?; exact IH].
  - intros st o st' H. destruct (is_closed (done a) st).
    + eapply emits_ret; exact H.
    + eapply IH; exact H.
Qed.

Lemma emits_announceToTrainer_events a evs :
  emits (loop_event a) (announceToTrainer fuel a evs).
Proof.
  unfold announceToTrainer.
  destruct (config.Trainer_Interval (config a) <=? 0);
    [apply emits_panic | apply emits_loop_events].
Qed.

Lemma loop_event_quiet a new :
  Forall (loop_event a) new ->
  count is_registration new = 0%nat /\ count is_keepalive new = 0%nat.
Proof.
  intros HF.
  split; apply count_none; (eapply Forall_impl; [| exact HF]);
    intros [c | | | |] Hev; simpl in *; try contradiction; try reflexivity.
  destruct Hev as [-> | [-> | [(client & _ & ->) | [Hu | Hu]]]]; try reflexivity;
    destruct Hu as [-> | [-> | [[m ->] | ->]]]; reflexivity.
Qed.

(** X1.  Whatever the select is offered and however the rounds are
    scheduled, the training loop only ever calls the trainer client it was
    given (with the configured upload timeout), the stream, the context's
    cancel and the two upload tasks' storage calls, reads being asked for
    [UploadBufferSize] bytes; besides calls it only records goroutine exits
    and logs errors.  It never registers and never starts a keepalive. *)
Theorem announceToTrainer_alphabet a evs (st : state) o st' :
  announceToTrainer fuel a evs st = (o, st') ->
  exists new,
    trace st' = trace st ++ new /\
    Forall (loop_event a) new /\
    count is_registration new = 0%nat /\
    count is_keepalive new = 0%nat.
Proof.
  intros H.
  destruct (emits_announceToTrainer_events a evs _ _ _ H) as (new & HT & HF).
  exists new. split; [exact HT |]. split; [exact HF |].
  apply (loop_event_quiet a), HF.
Qed.

(** [Serve], step by step. *)
Lemma Serve_run a evs (st : state) :
  let st2 := emit (keepalive a) (emit (EvInfo "announce scheduler to manager") st) in
  Serve fuel a evs st =
  match trainerClient a with
  | None => (Returned None, st2)
  | Some _ =>
      match announceToTrainer fuel a evs
              (emit (EvInfo "announce scheduler to trainer") st2) with
      | (Returned r, s) => (Returned r, s)
      | (Panicked msg, s) => (Panicked msg, s)
      | (Pending, s) => (Pending, s)
      end
  end.
Proof.
  intros st2. unfold Serve, announceToManager, bind, log, ret. fold (keepalive a).
  fold st2. destruct (trainerClient a) as [client |]; [| reflexivity].
  destruct (announceToTrainer fuel a evs
              (emit (EvInfo "announce scheduler to trainer") st2))
    as [[[e |] | msg | ] s]; reflexivity.
Qed.

(** X2.  An announcer without a trainer client never trains: [Serve] logs,
    starts the keepalive and returns nil at once, whatever the select would
    be offered. *)
Theorem Serve_without_trainer a evs (st : state) :
  trainerClient a = None ->
  Serve fuel a evs st =
  (Returned None,
   emit (keepalive a) (emit (EvInfo "announce scheduler to manager") st)).
Proof.
  intros Hnil. rewrite Serve_run. cbv zeta. rewrite Hnil. reflexivity.
Qed.

(** X3.  Every run of [Serve] starts the keepalive goroutine exactly once,
    before anything else but its first log line: with the manager client,
    the configured interval, the node's identity and the [done] channel that
    [Stop] closes.  Nothing after it starts another. *)
Theorem Serve_starts_keepalive_once a evs (st : state) o st' :
  Serve fuel a evs st = (o, st') ->
  exists later,
    trace st' =
    trace st ++ EvInfo "announce scheduler to manager" :: keepalive a :: later /\
    count is_keepalive later = 0%nat /\
    keepalive a =
    EvGoKeepAlive (managerClient a)
      (config.Manager_KeepAlive_Interval (config a))
      {| managerv2.ka_SourceType := managerv2.SourceType_SCHEDULER_SOURCE;
         managerv2.ka_Hostname := config.Server_Host (config a);
         managerv2.ka_Ip := config.Server_AdvertiseIP (config a);
         managerv2.ka_ClusterId :=
           uint64 (config.Manager_SchedulerClusterID (config a)) |}
      (done a).
Proof.
  intros H. rewrite Serve_run in H. cbv zeta in H.
  destruct (trainerClient a) as [client |].
  - destruct (announceToTrainer fuel a evs _) as [o1 s] eqn:E.
    destruct (emits_announceToTrainer_events _ _ _ _ _ E) as (new & HT & HF).
    destruct (loop_event_quiet _ _ HF) as [_ HK].
    exists (EvInfo "announce scheduler to trainer" :: new).
    assert (st' = s) as -> by (destruct o1; inversion H; reflexivity).
    rewrite HT. simpl. rewrite <- !app_assoc. simpl.
    split; [reflexivity |]. split; [| reflexivity].
    exact HK.
  - inversion H; subst. exists []. simpl. rewrite <- app_assoc. auto.
Qed.

(** X4.  Every message [Serve] ever sends to the trainer carries the host
    name, the advertised IP and the cluster id of the announcer's
    configuration, under every schedule and whatever the collaborators
    answer. *)
Theorem Serve_messages_are_stamped a evs (st : state) o st' :
  Serve fuel a evs st = (o, st') ->
  exists new,
    trace st' = trace st ++ new /\
    Forall (stamped a) (sends new).
Proof.
  intros H. rewrite Serve_run in H. cbv zeta in H.
  assert (HS : forall new, Forall (loop_event a) new -> Forall (stamped a) (sends new)).
  { induction 1 as [| ev l Hev _ IH]; simpl; [constructor |].
    destruct ev as [[] | | | |]; simpl in *; auto.
    constructor; [| exact IH].
    destruct Hev as [Hc | [Hc | [(client & _ & Hc) | [Hu | Hu]]]];
      try discriminate;
      destruct Hu as [Hc | [Hc | [[buf Hc] | Hc]]]; try discriminate;
      inversion Hc; subst; repeat split. }
  destruct (trainerClient a) as [client |].
  - destruct (announceToTrainer fuel a evs _) as [o1 s] eqn:E.
    destruct (emits_announceToTrainer_events _ _ _ _ _ E) as (new & HT & HF).
    assert (st' = s) as -> by (destruct o1; inversion H; reflexivity).
    exists ([EvInfo "announce scheduler to manager"; keepalive a;
             EvInfo "announce scheduler to trainer"] ++ new).
    rewrite HT. simpl. rewrite <- !app_assoc. simpl. split; [reflexivity |].
    apply HS, HF.
  - inversion H; subst.
    exists [EvInfo "announce scheduler to manager"; keepalive a].
    simpl. rewrite <- app_assoc. split; [reflexivity | constructor].
Qed.

End Alphabet.

(** ** The round's context and the stream *)

Section RoundBracket.

Context {C : Collaborators}.
Variable fuel : nat.

Lemma train_cancel a sched (st : state) o st' :
  train fuel a sched st = (o, st') ->
  exists evs,
    count (is_call cancel) evs = 0%nat /\
    match o with
    | Pending => trace st' = trace st ++ evs
    | _ => trace st' = trace st ++ evs ++ [EvCall cancel]
    end.
Proof.
  intros H. rewrite train_defer in H. unfold defer in H.
  destruct (train_body fuel a sched st) as [ob st1] eqn:E.
  assert (HB : emits (fun ev => is_call cancel ev = false) (train_body fuel a sched)).
  { eapply emits_weaken; [apply body_event_not_cancel |].
    apply emits_train_body_events. }
  destruct (HB _ _ _ E) as (evs & HT & HF).
  exists evs. split; [apply count_none; exact HF |].
  rewrite call_run in H.
  destruct ob as [r | msg | ]; inversion H; subst; simpl;
    rewrite HT, <- ?app_assoc; reflexivity.
Qed.

(** X5.  Every round that returns or panics has called the context's
    [cancel] exactly once, as its very last call: after a failed stream
    open, after failed uploads, after the finalization, and also when the
    trainer client is nil.  A round still running has not called it. *)
Theorem train_cancels_last a sched (st : state) o st' :
  train fuel a sched st = (o, st') ->
  exists evs,
    count (is_call cancel) evs = 0%nat /\
    match o with
    | Pending => trace st' = trace st ++ evs
    | _ => trace st' = trace st ++ evs ++ [EvCall cancel]
    end.
Proof. apply train_cancel. Qed.

(** X6.  When the trainer refuses to open the stream, the round returns
    that error as it is; it has started no upload, touched no storage and
    sent nothing: its only calls are [Train] and [cancel]. *)
Theorem train_stream_open_failure a client sched (st : state) e :
  let tr := Train client (config.Trainer_UploadTimeout (config a)) in
  trainerClient a = Some client ->
  fst (handle tr (world st)) = Some e ->
  train fuel a sched st = (Returned (Some e), after cancel (after tr st)).
Proof.
  intros tr Hc Hfail. rewrite train_defer. unfold defer, train_body.
  rewrite Hc. unfold bind. rewrite call_run. fold tr. rewrite Hfail.
  cbn [ret]. rewrite call_run. reflexivity.
Qed.

End RoundBracket.

(** ** More on the upload tasks *)

Lemma count_cons (f : event -> bool) (ev : event) (l : list event) :
  count f (ev :: l) = ((if f ev then 1 else 0) + count f l)%nat.
Proof. unfold count. simpl. destruct (f ev); reflexivity. Qed.

Lemma transfers_counts (d : dataset) (a : announcer) (body : list call) :
  transfers d a body ->
  (count is_send (map EvCall body) <= count is_read (map EvCall body)
   <= count is_send (map EvCall body) + 1)%nat /\
  (1 <= count is_read (map EvCall body))%nat /\
  (count is_send (map EvCall body) = count is_read (map EvCall body) <->
   exists m, last_of body = Some (Send m)).
Proof.
  induction 1 as [| buf_n | buf_n rest Hrest IH].
  - unfold count. cbn [map filter is_send is_read List.length last_of].
    split; [lia |]. split; [lia |].
    split; [intros H; discriminate | intros [m Hm]; discriminate].
  - unfold count. cbn [map filter is_send is_read List.length last_of].
    split; [lia |]. split; [lia |]. split; eauto.
  - cbn [map]. rewrite !count_cons. cbn [is_send is_read].
    destruct IH as (H1 & H2 & H3). repeat split; try lia.
    + intros H. destruct H3 as [H3 _]. destruct H3 as [m Hm]; [lia |].
      exists m. inversion Hrest; subst; exact Hm.
    + intros [m Hm]. destruct H3 as [_ H3].
      assert (count is_send (map EvCall rest) = count is_read (map EvCall rest));
        [| lia].
      apply H3. exists m. inversion Hrest; subst; exact Hm.
Qed.

Section MoreUpload.

Context {C : Collaborators}.

(** X7.  When the storage cannot open the dataset, the upload task returns
    that error as it is and makes no other call: nothing is read, nothing is
    sent, and nothing is closed, there being nothing to close. *)
Theorem upload_task_open_failure d fuel a (st : state) e :
  fst (handle (Open d (storage a)) (world st)) = Some e ->
  exec (upload_task d fuel a) st =
  (Returned (Some e), after (Open d (storage a)) st).
Proof.
  intros Hfail. rewrite upload_task_upload. unfold upload.
  rewrite exec_pbind. unfold bind. cbn [pcall exec]. unfold bind.
  rewrite call_run. cbn [exec ret]. rewrite Hfail. reflexivity.
Qed.

(** X8.  A read that fails with an error other than [io.EOF] ends the loop
    with that error as it is, and the bytes that came with the failed read
    are not sent. *)
Theorem upload_read_failure_drops_bytes d a n (st : state) buf_n e :
  let rd := Read d UploadBufferSize in
  fst (handle rd (world st)) = (buf_n, Some e) ->
  e <> io_EOF ->
  exec (upload_task_loop d (S n) a) st = (Returned (Some e), after rd st) /\
  sends (trace (after rd st)) = sends (trace st).
Proof.
  intros rd Hrd Hne. rewrite upload_task_loop_upload, upload_loop_step.
  cbv zeta. fold rd.
  change (fst (handle rd (world st)))
    with (fst (handle rd (world st)) : list byte * option error).
  rewrite Hrd. cbn [fst snd].
  assert (is_failure (Some e) = true) as -> by (destruct e; try reflexivity; contradiction).
  split; [reflexivity |].
  unfold after. cbn [trace]. rewrite sends_app. cbn. apply app_nil_r.
Qed.

(** X9.  A send that fails ends the loop with the send's error as it is,
    also when the read before it had reported end-of-stream; no further read
    is made. *)
Theorem upload_send_failure_stops d a n (st : state) buf_n err e :
  let rd := Read d UploadBufferSize in
  let sd := Send (chunk_request d a buf_n) in
  fst (handle rd (world st)) = (buf_n, err) ->
  is_failure err = false ->
  fst (handle sd (world (after rd st))) = Some e ->
  exec (upload_task_loop d (S n) a) st = (Returned (Some e), after sd (after rd st)).
Proof.
  intros rd sd Hrd Hok Hsd. rewrite upload_task_loop_upload, upload_loop_step.
  cbv zeta. fold rd.
  change (fst (handle rd (world st)))
    with (fst (handle rd (world st)) : list byte * option error).
  rewrite Hrd. cbn [fst snd]. rewrite Hok. fold sd.
  change (fst (handle sd (world (after rd st))))
    with (fst (handle sd (world (after rd st))) : option error).
  rewrite Hsd. reflexivity.
Qed.

Lemma upload_loop_shape d a n : forall (st : state) r st',
  exec (upload_loop d a n) st = (Returned r, st') ->
  exists body,
    trace st' = trace st ++ map EvCall body /\
    transfers d a body /\
    (r = None -> exists m, last_of body = Some (Send m)).
Proof.
  induction n as [| n IH]; intros st r st' H.
  - discriminate.
  - rewrite upload_loop_step in H. cbv zeta in H.
    set (rd := Read d UploadBufferSize) in *.
    set (buf_n := fst (fst (handle rd (world st)))) in *.
    set (err := snd (fst (handle rd (world st)))) in *.
    set (sd := Send (chunk_request d a buf_n)) in *.
    destruct (is_failure err) eqn:Ef.
    { inversion H; subst. exists [rd]. simpl.
      split; [reflexivity |]. split; [constructor |].
      intros ->. discriminate. }
    destruct (fst (handle sd (world (after rd st)))) as [e |].
    { inversion H; subst. exists [rd; sd]. simpl. rewrite <- app_assoc.
      split; [reflexivity |]. split; [constructor |]. intros Hr. discriminate. }
    destruct (is_EOF err).
    { inversion H; subst. exists [rd; sd]. simpl. rewrite <- app_assoc.
      split; [reflexivity |]. split; [constructor |].
      intros _. eexists. reflexivity. }
    destruct (IH _ _ _ H) as (body & HT & HS & HL).
    exists (rd :: sd :: body). simpl in HT. rewrite HT, <- !app_assoc.
    split; [reflexivity |]. split; [constructor; exact HS |].
    intros Hr. destruct (HL Hr) as [m Hm]. exists m.
    inversion HS; subst; exact Hm.
Qed.

(** X10.  Between opening and closing, a returning upload task alternates
    reads and sends, starting with a read: it sends exactly one message per
    read, except that a read that failed is not followed by a send.  It reads
    at least once, and when it returns nil its last call before [Close] was a
    send and it has sent exactly as many messages as it has read. *)
Theorem upload_task_alternates d fuel a (st : state) r st' :
  fst (handle (Open d (storage a)) (world st)) = None ->
  exec (upload_task d fuel a) st = (Returned r, st') ->
  exists body,
    trace st' =
    trace st ++
    EvCall (Open d (storage a)) :: map EvCall body ++ [EvCall (Close d)] /\
    transfers d a body /\
    (1 <= count is_read (map EvCall body))%nat /\
    (count is_send (map EvCall body) <= count is_read (map EvCall body)
     <= count is_send (map EvCall body) + 1)%nat /\
    (r = None ->
     count is_send (map EvCall body) = count is_read (map EvCall body)).
Proof.
  intros Hopen H. rewrite upload_task_upload, exec_upload_opened in H by exact Hopen.
  destruct (exec (upload_loop d a fuel) (after (Open d (storage a)) st))
    as [[r1 | msg | ] st1] eqn:E; try discriminate.
  inversion H; subst.
  destruct (upload_loop_shape _ _ _ _ _ _ E) as (body & HT & HS & HL).
  destruct (transfers_counts _ _ _ HS) as (H1 & H2 & H3).
  exists body. simpl. simpl in HT. rewrite HT, <- !app_assoc. simpl.
  split; [reflexivity |]. split; [exact HS |]. split; [exact H2 |].
  split; [exact H1 |]. intros Hr. apply H3, HL, Hr.
Qed.

End MoreUpload.

(** ** Channels, ticks and shutdown *)

Lemma nth_error_set_nth_other {A : Type} (l : list A) (i j : nat) (x : A) :
  i <> j -> nth_error (set_nth i x l) j = nth_error l j.
Proof.
  revert i j. induction l as [| y l IH]; intros [| i] [| j] H; simpl;
    try reflexivity; try contradiction.
  apply IH. intros ->. apply H. reflexivity.
Qed.

Section Chans.

Context {C : Collaborators}.
Variable fuel : nat.

Lemma keeps_chans_ret {A : Type} (a : A) : keeps_chans (ret a).
Proof. intros st o st' H. inversion H; reflexivity. Qed.

Lemma keeps_chans_panic {A : Type} msg : keeps_chans (@panic _ A msg).
Proof. intros st o st' H. inversion H; reflexivity. Qed.

Lemma keeps_chans_log ev : keeps_chans (log ev).
Proof. intros st o st' H. inversion H; reflexivity. Qed.

Lemma keeps_chans_call c : keeps_chans (call_ c).
Proof. intros st o st' H. rewrite call_run in H. inversion H; reflexivity. Qed.

Lemma keeps_chans_bind {A B : Type} (m : M A) (f : A -> M B) :
  keeps_chans m -> (forall a, keeps_chans (f a)) -> keeps_chans (bind m f).
Proof.
  intros Hm Hf st o st' H. unfold bind in H.
  destruct (m st) as [[a | msg | ] st1] eqn:E; pose proof (Hm _ _ _ E) as H1.
  - rewrite (Hf a _ _ _ H). exact H1.
  - inversion H; subst. exact H1.
  - inversion H; subst. exact H1.
Qed.

Lemma keeps_chans_defer {A B : Type} (cleanup : M B) (body : M A) :
  keeps_chans cleanup -> keeps_chans body -> keeps_chans (defer cleanup body).
Proof.
  intros Hc Hb st o st' H. unfold defer in H.
  destruct (body st) as [[a | msg | ] st1] eqn:E; pose proof (Hb _ _ _ E) as H1.
  - destruct (cleanup st1) as [[b | msg | ] st2] eqn:E2;
      pose proof (Hc _ _ _ E2) as H2; inversion H; subst; congruence.
  - destruct (cleanup st1) as [[b | msg' | ] st2] eqn:E2;
      pose proof (Hc _ _ _ E2) as H2; inversion H; subst; congruence.
  - inversion H; subst. exact H1.
Qed.

Lemma keeps_chans_errgroup_Wait sched gs kept :
  keeps_chans (errgroup_Wait sched gs kept).
Proof.
  intros st o st' H.
  destruct (errgroup_Wait_spec _ _ _ _ _ _ H) as (evs & _ & HC & _). exact HC.
Qed.

(** A round leaves every channel as it is. *)
Lemma keeps_chans_train a sched : keeps_chans (train fuel a sched).
Proof.
  rewrite train_defer. apply keeps_chans_defer; [apply keeps_chans_call |].
  unfold train_body. destruct (trainerClient a); [| apply keeps_chans_panic].
  apply keeps_chans_bind; [apply keeps_chans_call |].
  intros [e |]; [apply keeps_chans_ret |].
  apply keeps_chans_bind; [apply keeps_chans_errgroup_Wait |].
  intros [e |]; [apply keeps_chans_ret |].
  apply keeps_chans_bind; [apply keeps_chans_call |].
  intros [e |]; apply keeps_chans_ret.
Qed.

(** The loop over ticks alone, with [done] open, goes on with what follows
    them. *)
Lemma loop_without_stop a evs : forall (st : state) r st',
  is_closed (done a) st = false ->
  forallb (fun ev => negb (is_stop_called ev)) evs = true ->
  announceToTrainer_loop fuel a evs st <> (Returned r, st').
Proof.
  induction evs as [| ev evs IH]; intros st r st' Hopen Hev H; simpl in *.
  - discriminate.
  - destruct ev as [sched | |]; simpl in Hev; try discriminate.
    + unfold bind in H.
      destruct (train fuel a sched st) as [[err | msg | ] st1] eqn:E;
        try discriminate.
      pose proof (keeps_chans_train _ _ _ _ _ E) as HC.
      assert (Hopen1 : is_closed (done a) st1 = false)
        by (unfold is_closed in *; rewrite HC; exact Hopen).
      destruct err as [e |]; simpl in H.
      * eapply (IH (emit (EvError e) st1)); eauto.
      * eapply (IH st1); eauto.
    + rewrite Hopen in H. eapply IH; eauto.
Qed.

(** X11.  With a trainer client set and the [done] channel open, [Serve]
    does not return as long as nobody calls [Stop]: whatever the ticks and
    however the rounds end, it is still running, or has panicked. *)
Theorem Serve_blocks_until_Stop a client evs (st : state) r st' :
  trainerClient a = Some client ->
  is_closed (done a) st = false ->
  forallb (fun ev => negb (is_stop_called ev)) evs = true ->
  Serve fuel a evs st <> (Returned r, st').
Proof.
  intros Hc Hopen Hev H. rewrite Serve_run in H. cbv zeta in H. rewrite Hc in H.
  destruct (announceToTrainer fuel a evs _) as [[r1 | msg | ] s] eqn:E;
    try discriminate.
  unfold announceToTrainer in E.
  destruct (config.Trainer_Interval (config a) <=? 0); [discriminate |].
  eapply loop_without_stop; [| exact Hev | exact E]. exact Hopen.
Qed.





End Chans.

(** ** Construction *)

Lemma last_of_cons {A : Type} (x : A) (l : list A) :
  last_of (x :: l) = match last_of l with Some y => Some y | None => Some x end.
Proof.
  revert x. induction l as [| y l IH]; intros x; [reflexivity |].
  change (last_of (x :: y :: l)) with (last_of (y :: l)).
  rewrite IH. destruct (last_of l); reflexivity.
Qed.

Lemma configured_with_trainer_clients cfg mgr sto clients ch :
  configured cfg mgr sto (map WithTrainerClient clients) ch =
  {| config := cfg; managerClient := mgr;
     trainerClient := last_client clients; storage := sto; done := ch |}.
Proof.
  unfold configured, last_client.
  assert (H : forall a0,
             fold_left (fun a opt => opt a) (map WithTrainerClient clients) a0 =
             {| config := config a0; managerClient := managerClient a0;
                trainerClient :=
                  match last_of clients with
                  | Some c => Some c
                  | None => trainerClient a0
                  end;
                storage := storage a0; done := done a0 |}).
  { induction clients as [| c clients IH]; intros a0.
    - destruct a0; reflexivity.
    - cbn [map fold_left]. rewrite IH, last_of_cons.
      destruct (last_of clients); reflexivity. }
  rewrite H. simpl. destruct (last_of clients); reflexivity.
Qed.

Lemma int32_in_range (z : Z) : - 2 ^ 31 <= z < 2 ^ 31 -> int32 z = z.
Proof. intros H. unfold int32. rewrite Z.mod_small; lia. Qed.

Lemma uint64_in_range (z : Z) : 0 <= z < 2 ^ 64 -> uint64 z = z.
Proof. intros H. unfold uint64. apply Z.mod_small. exact H. Qed.

(** X13.  The identity the announcer announces survives the conversions of
    the code: a port that fits in an [int32] (any TCP port does) is
    registered unchanged, and a cluster id below [2^64] is sent unchanged
    in the registration, in the keepalive and in every chunk message.  A
    port out of that range is registered modulo [2^32], inside the [int32]
    range. *)
Theorem identity_survives_conversions (a : announcer) :
  let port := config.Server_AdvertisePort (config a) in
  let id := config.Manager_SchedulerClusterID (config a) in
  registration a = UpdateScheduler (managerClient a) (registration_request a) /\
  - 2 ^ 31 <= managerv2.us_Port (registration_request a) < 2 ^ 31 /\
  (managerv2.us_Port (registration_request a) - port) mod 2 ^ 32 = 0 /\
  (- 2 ^ 31 <= port < 2 ^ 31 ->
   managerv2.us_Port (registration_request a) = port) /\
  (0 <= id < 2 ^ 64 ->
   managerv2.us_SchedulerClusterId (registration_request a) = id /\
   (forall d buf_n, trainerv1.ClusterId (chunk_request d a buf_n) = id) /\
   exists req,
     keepalive a =
     EvGoKeepAlive (managerClient a)
       (config.Manager_KeepAlive_Interval (config a)) req (done a) /\
     managerv2.ka_ClusterId req = id).
Proof.
  intros port id. split; [reflexivity |]. cbn [registration_request managerv2.us_Port
    managerv2.us_SchedulerClusterId]. fold port id.
  assert (Hm : 0 <= (port + 2 ^ 31) mod 2 ^ 32 < 2 ^ 32)
    by (apply Z.mod_pos_bound; lia).
  split; [unfold int32; lia |].
  split.
  { unfold int32.
    replace ((port + 2 ^ 31) mod 2 ^ 32 - 2 ^ 31 - port)
      with ((port + 2 ^ 31) mod 2 ^ 32 - (port + 2 ^ 31)) by lia.
    rewrite Zminus_mod, Z.mod_mod, Z.sub_diag by lia. reflexivity. }
  split; [apply int32_in_range |].
  intros Hid. split; [apply uint64_in_range, Hid |].
  split.
  - intros d buf_n. cbn. apply uint64_in_range, Hid.
  - eexists. split; [reflexivity |]. cbn. apply uint64_in_range, Hid.
Qed.

Section Construction.

Context {C : Collaborators}.

(** X14.  [New] with any number of [WithTrainerClient] options registers
    with the manager client it was given, and when that succeeds it returns
    an announcer holding exactly the configuration, manager client and
    storage it was given, the trainer client of the last option (nil if
    there is none), and a [done] channel that is new and open; the channels
    that existed before are left as they were. *)
Theorem New_builds_the_announcer cfg mgr sto clients (st : state) :
  let a := {| config := cfg; managerClient := mgr;
              trainerClient := last_client clients; storage := sto;
              done := List.length (chans st) |} in
  fst (handle (UpdateScheduler mgr (registration_request a)) (world st)) = None ->
  exists st1,
    New cfg mgr sto (map WithTrainerClient clients) st
    = (Returned (Some a, None), st1) /\
    trace st1 = trace st ++ [EvCall (UpdateScheduler mgr (registration_request a))] /\
    nth_error (chans st) (done a) = None /\
    nth_error (chans st1) (done a) = Some false /\
    forall c b, nth_error (chans st) c = Some b -> nth_error (chans st1) c = Some b.
Proof.
  intros a Hok.
  pose proof (New_run cfg mgr sto (map WithTrainerClient clients) st) as HN.
  cbv zeta in HN. rewrite configured_with_trainer_clients in HN. fold a in HN.
  change (registration a) with (UpdateScheduler mgr (registration_request a)) in HN.
  rewrite Hok in HN. eexists. split; [exact HN |]. cbn [trace chans done a].
  split; [reflexivity |].
  split; [apply nth_error_None; lia |].
  split.
  - rewrite nth_error_app2, Nat.sub_diag by lia. reflexivity.
  - intros c b Hc. rewrite nth_error_app1; [exact Hc |].
    apply nth_error_Some. congruence.
Qed.

(** X15.  Two announcers built one after the other have different [done]
    channels, so stopping the first leaves the second running: after
    [Stop] on the first, its channel is closed and the second one's is
    still open. *)
Theorem Stop_is_per_announcer cfg1 mgr1 sto1 clients1 cfg2 mgr2 sto2 clients2
        (st : state) a1 a2 st1 st2 :
  New cfg1 mgr1 sto1 (map WithTrainerClient clients1) st
  = (Returned (Some a1, None), st1) ->
  New cfg2 mgr2 sto2 (map WithTrainerClient clients2) st1
  = (Returned (Some a2, None), st2) ->
  done a1 <> done a2 /\
  exists st3,
    Stop a1 st2 = (Returned None, st3) /\
    is_closed (done a1) st3 = true /\
    is_closed (done a2) st3 = false.
Proof.
  intros H1 H2.
  rewrite New_run in H1, H2. cbv zeta in H1, H2.
  rewrite configured_with_trainer_clients in H1, H2.
  assert (Ha1 : done a1 = List.length (chans st) /\ chans st1 = chans st ++ [false]).
  { destruct (fst (handle _ (world st))); inversion H1; subst; auto. }
  assert (Ha2 : done a2 = List.length (chans st1) /\ chans st2 = chans st1 ++ [false]).
  { destruct (fst (handle _ (world st1))); inversion H2; subst; auto. }
  destruct Ha1 as [D1 C1]. destruct Ha2 as [D2 C2].
  assert (Hlen : List.length (chans st1) = S (List.length (chans st)))
    by (rewrite C1, length_app; simpl; lia).
  assert (Hne : done a1 <> done a2) by lia.
  split; [exact Hne |].
  assert (Hopen1 : nth_error (chans st2) (done a1) = Some false).
  { rewrite C2, C1, D1, <- app_assoc, nth_error_app2, Nat.sub_diag by lia.
    reflexivity. }
  assert (Hopen2 : nth_error (chans st2) (done a2) = Some false).
  { rewrite C2, D2, nth_error_app2, Nat.sub_diag by lia. reflexivity. }
  eexists. split; [apply Stop_open, Hopen1 |].
  unfold is_closed. simpl.
  rewrite (nth_error_set_nth _ _ _ _ Hopen1).
  rewrite nth_error_set_nth_other by exact Hne. rewrite Hopen2. auto.
Qed.

End Construction.

(** ** Each upload within the interleaving of a round *)

Lemma calls_of_app (d : dataset) (l1 l2 : list event) :
  calls_of d (l1 ++ l2) = calls_of d l1 ++ calls_of d l2.
Proof.
  induction l1 as [| ev l1 IH]; simpl; [reflexivity |].
  destruct ev as [c | | | |]; auto. destruct (owned d c); simpl; rewrite IH; reflexivity.
Qed.

Lemma calls_of_owned (d : dataset) (cs : list call) :
  Forall (fun c => owned d c = true) cs -> calls_of d (map EvCall cs) = cs.
Proof.
  induction 1 as [| c cs Hc _ IH]; simpl; [reflexivity |].
  rewrite Hc, IH. reflexivity.
Qed.

Lemma owned_other (d d' : dataset) (c : call) :
  owned d' c = true -> d <> d' -> owned d c = false.
Proof.
  unfold owned. destruct (owner c) as [d0 |]; [| discriminate].
  destruct d, d', d0; simpl; intros H Hne; try reflexivity; try discriminate;
    contradiction.
Qed.

Lemma calls_of_other (d d' : dataset) (cs : list call) :
  Forall (fun c => owned d' c = true) cs -> d <> d' ->
  calls_of d (map EvCall cs) = [].
Proof.
  intros H Hne. induction H as [| c cs Hc _ IH]; simpl; [reflexivity |].
  rewrite (owned_other _ _ _ Hc Hne). exact IH.
Qed.

Lemma dataset_of_inj (t t' : task) : t <> t' -> dataset_of t <> dataset_of t'.
Proof. destruct t, t'; simpl; intros H; try congruence; discriminate. Qed.

Lemma upload_call_owned (d : dataset) (a : announcer) (c : call) :
  upload_call d a c -> owned d c = true.
Proof.
  intros [-> | [-> | [[m ->] | ->]]]; destruct d; reflexivity.
Qed.

Lemma train_go_owned (t : task) (fuel : nat) (a : announcer) :
  calls_satisfy (fun c => owned (dataset_of t) c = true) (train_go t fuel a).
Proof.
  eapply calls_satisfy_weaken; [| apply train_go_calls].
  intros c. apply upload_call_owned.
Qed.

Lemma branch_calls {A : Type} (P : call -> Prop) (p : prog A) :
  forall cs r, calls_satisfy P p -> branch p cs r -> Forall P cs.
Proof.
  induction p as [a | | c k IH]; intros cs r HP HB; simpl in *.
  - destruct HB as [-> _]. constructor.
  - contradiction.
  - destruct cs as [| c' cs']; [contradiction |].
    destruct HB as (-> & x & Hx). destruct HP as [Hc Hk].
    constructor; [exact Hc |]. eapply IH; eauto.
Qed.

Lemma branch_pbind {A B : Type} (p : prog A) (f : A -> prog B) :
  forall cs r,
    branch (pbind p f) cs r ->
    exists cs1 cs2 y, cs = cs1 ++ cs2 /\ branch p cs1 y /\ branch (f y) cs2 r.
Proof.
  induction p as [a | | c k IH]; intros cs r H; simpl in *.
  - exists [], cs, a. auto.
  - contradiction.
  - destruct cs as [| c' cs']; [contradiction |].
    destruct H as (-> & x & Hx).
    destruct (IH _ _ _ Hx) as (cs1 & cs2 & y & -> & H1 & H2).
    exists (c :: cs1), cs2, y. simpl. eauto.
Qed.

Lemma branch_upload_loop (d : dataset) (a : announcer) (n : nat) :
  forall cs r,
    branch (upload_loop d a n) cs r ->
    transfers d a cs /\ (r = None -> exists m, last_of cs = Some (Send m)).
Proof.
  induction n as [| n IH]; intros cs r H; simpl in H; [contradiction |].
  destruct cs as [| c1 cs1]; [contradiction |].
  destruct H as (-> & [buf_n err] & H). simpl in H.
  destruct (is_failure err) eqn:Ef; simpl in H.
  { destruct H as [-> <-]. split; [constructor |].
    intros ->. discriminate. }
  destruct cs1 as [| c2 cs2]; [contradiction |].
  destruct H as (-> & [e |] & H); simpl in H.
  { destruct H as [-> <-]. split; [constructor | intros Hr; discriminate]. }
  destruct (is_EOF err); simpl in H.
  { destruct H as [-> <-]. split; [constructor |].
    intros _. eexists. reflexivity. }
  destruct (IH _ _ H) as [HT HL]. split; [constructor; exact HT |].
  intros Hr. destruct (HL Hr) as [m Hm]. exists m.
  inversion HT; subst; exact Hm.
Qed.

(** The calls along a branch of one of the two goroutines of a round. *)
Lemma branch_train_go (t : task) (fuel : nat) (a : announcer) cs x :
  branch (train_go t fuel a) cs x ->
  (cs = [Open (dataset_of t) (storage a)] /\
   exists e, x = Some (wrapped (stage t) e)) \/
  (exists body,
      cs = Open (dataset_of t) (storage a) :: body ++ [Close (dataset_of t)] /\
      transfers (dataset_of t) a body /\
      (x = None -> exists m, last_of body = Some (Send m))).
Proof.
  intros H. unfold train_go in H.
  apply branch_pbind in H. destruct H as (cs1 & cs2 & y & -> & H1 & H2).
  assert (cs2 = [] /\ (x = None <-> y = None) /\
          (forall e, y = Some e -> x = Some (wrapped (stage t) e))) as (-> & Hxy & Hw).
  { destruct y as [e |]; simpl in H2; destruct H2 as [-> <-];
      repeat split; try discriminate; auto.
    intros e' He'. inversion He'; reflexivity. }
  rewrite app_nil_r. unfold upload in H1.
  apply branch_pbind in H1. destruct H1 as (cs3 & cs4 & z & -> & H3 & H4).
  simpl in H3. destruct cs3 as [| c3 cs3]; [contradiction |].
  destruct H3 as (-> & z' & -> & <-).
  destruct z' as [e |]; simpl in H4.
  - destruct H4 as [-> <-]. left. split; [reflexivity |]. eauto.
  - unfold pdefer in H4. apply branch_pbind in H4.
    destruct H4 as (body & cs5 & v & -> & H5 & H6).
    simpl in H6. destruct cs5 as [| c5 cs5]; [contradiction |].
    destruct H6 as (-> & w & -> & <-).
    destruct (branch_upload_loop _ _ _ _ _ H5) as [HT HL].
    right. exists body. split; [reflexivity |]. split; [exact HT |].
    intros Hx. apply HL, Hxy, Hx.
Qed.

Section Projection.

Context {C : Collaborators}.

Lemma exec_branch {A : Type} (p : prog A) : forall (st : state) r st',
  exec p st = (Returned r, st') ->
  exists cs, trace st' = trace st ++ map EvCall cs /\ branch p cs r.
Proof.
  induction p as [a | | c k IH]; intros st r st' H.
  - inversion H; subst. exists []. simpl. rewrite app_nil_r. auto.
  - discriminate.
  - rewrite exec_Call in H. destruct (IH _ _ _ _ H) as (cs & HT & HB).
    exists (c :: cs). simpl in HT. rewrite HT, <- app_assoc.
    split; [reflexivity |]. simpl. eauto.
Qed.

Lemma projected_cons_exit t g t0 r0 evs :
  projected t g evs -> projected t g (EvGoExit t0 r0 :: evs).
Proof.
  destruct g as [p |]; simpl; auto.
  intros (x & Hin & Hb). exists x. auto.
Qed.

Lemma projected_cons_other t g c evs :
  owned (dataset_of t) c = false ->
  projected t g evs -> projected t g (EvCall c :: evs).
Proof.
  intros Hc. destruct g as [p |]; simpl; rewrite Hc; auto.
Qed.

Lemma projected_app_l t g evs1 evs2 :
  calls_of (dataset_of t) evs2 = [] ->
  projected t g evs1 -> projected t g (evs1 ++ evs2).
Proof.
  intros H2. destruct g as [p |]; simpl; rewrite calls_of_app, H2, app_nil_r; auto.
  intros (x & Hin & Hb). exists x. split; [| exact Hb].
  rewrite exits_app. apply in_or_app. auto.
Qed.

Lemma projected_app_r t g evs1 evs2 :
  calls_of (dataset_of t) evs1 = [] ->
  projected t g evs2 -> projected t g (evs1 ++ evs2).
Proof.
  intros H1. destruct g as [p |]; simpl; rewrite calls_of_app, H1; auto.
  intros (x & Hin & Hb). exists x. split; [| exact Hb].
  rewrite exits_app. apply in_or_app. auto.
Qed.

Lemma finish_projection t g kept (st : state) r st' :
  goroutine_calls (fun c => owned (dataset_of t) c = true) g ->
  finish t g kept st = (Returned r, st') ->
  exists evs,
    trace st' = trace st ++ evs /\
    projected t g evs /\
    forall t', t' <> t -> calls_of (dataset_of t') evs = [].
Proof.
  intros Hg H. destruct g as [p |]; simpl in H.
  - unfold bind in H. destruct (exec p st) as [[x | msg | ] st1] eqn:E;
      try discriminate.
    inversion H; subst. destruct (exec_branch _ _ _ _ E) as (cs & HT & HB).
    pose proof (branch_calls _ _ _ _ Hg HB) as Hown.
    exists (map EvCall cs ++ [EvGoExit t x]). simpl. rewrite HT, <- app_assoc.
    split; [reflexivity |]. split.
    + exists x. rewrite exits_app, calls_of_app. simpl. rewrite app_nil_r.
      split; [apply in_or_app; right; simpl; auto |].
      rewrite calls_of_owned by exact Hown. exact HB.
    + intros t' Hne. rewrite calls_of_app. simpl. rewrite app_nil_r.
      apply (calls_of_other _ (dataset_of t)); [exact Hown |].
      apply dataset_of_inj, Hne.
  - inversion H; subst. exists []. rewrite app_nil_r. simpl. auto.
Qed.

(** Under every schedule, the calls about a goroutine's dataset in the
    trace of [Wait] are, in order, those along one branch of its program,
    which ends by returning the value it exits with. *)
Lemma errgroup_Wait_projection sched : forall gs kept (st : state) r st',
  (forall t, goroutine_calls (fun c => owned (dataset_of t) c = true) (pick t gs)) ->
  errgroup_Wait sched gs kept st = (Returned r, st') ->
  exists evs,
    trace st' = trace st ++ evs /\ forall t, projected t (pick t gs) evs.
Proof.
  induction sched as [| t sched IH]; intros gs kept st r st' Hg H.
  - rewrite errgroup_Wait_nil in H. unfold bind in H.
    destruct (finish GoDownload (fst gs) kept st) as [[k1 | msg | ] st1] eqn:E1;
      try discriminate.
    destruct (finish_projection _ _ _ _ _ _ (Hg GoDownload) E1)
      as (evs1 & HT1 & HP1 & HO1).
    destruct (finish_projection _ _ _ _ _ _ (Hg GoNetworkTopology) H)
      as (evs2 & HT2 & HP2 & HO2).
    exists (evs1 ++ evs2). rewrite HT2, HT1, app_assoc. split; [reflexivity |].
    intros [|]; simpl.
    + apply projected_app_l; [apply HO2; discriminate | exact HP1].
    + apply projected_app_r; [apply HO1; discriminate | exact HP2].
  - destruct (running gs) as [| t0 l0] eqn:Erun.
    { assert (gs = (Exited, Exited)) as ->.
      { destruct gs as [[p1 |] [p2 |]]; try discriminate; reflexivity. }
      exists []. rewrite errgroup_Wait_exited in H. inversion H; subst.
      rewrite app_nil_r. split; [reflexivity |]. intros [|]; reflexivity. }
    rewrite errgroup_Wait_cons in H by (rewrite Erun; discriminate).
    clear Erun t0 l0. pose proof (Hg t) as Hgt.
    destruct (pick t gs) as [[r0 | | c k] |] eqn:Epick.
    + unfold bind in H. simpl in H.
      assert (Hg' : forall t',
                 goroutine_calls (fun c => owned (dataset_of t') c = true)
                                 (pick t' (put t Exited gs))).
      { intros t'. rewrite pick_put.
        destruct t, t'; first [exact I | apply (Hg GoDownload)
                               | apply (Hg GoNetworkTopology)]. }
      destruct (IH _ _ _ _ _ Hg' H) as (evs & HT & HP).
      exists (EvGoExit t r0 :: evs). simpl in HT. rewrite HT, <- app_assoc.
      split; [reflexivity |]. intros t'. pose proof (HP t') as HPt.
      rewrite pick_put in HPt.
      destruct t, t'; try (apply projected_cons_exit; exact HPt);
        rewrite Epick; simpl in *; rewrite HPt; eauto.
    + discriminate.
    + unfold bind in H. rewrite call_run in H. destruct Hgt as [Hc Hk].
      assert (Hg' : forall t',
                 goroutine_calls (fun c => owned (dataset_of t') c = true)
                   (pick t' (put t (Running (k (fst (handle c (world st))))) gs))).
      { intros t'. rewrite pick_put.
        destruct t, t'; first [apply Hk | apply (Hg GoDownload)
                               | apply (Hg GoNetworkTopology)]. }
      destruct (IH _ _ _ _ _ Hg' H) as (evs & HT & HP).
      exists (EvCall c :: evs). simpl in HT. rewrite HT, <- app_assoc.
      split; [reflexivity |]. intros t'. pose proof (HP t') as HPt.
      rewrite pick_put in HPt.
      destruct t, t';
        try (apply projected_cons_other;
             [eapply owned_other; [exact Hc | discriminate] | exact HPt]);
        rewrite Epick; simpl in *; rewrite Hc;
        destruct HPt as (x & Hin & Hb); exists x; eauto.
    + apply (IH _ _ _ _ _ Hg H).
Qed.

End Projection.

Section RoundProjection.

Context {C : Collaborators}.
Variable fuel : nat.

Lemma pick_uploads t a : pick t (uploads fuel a) = Running (train_go t fuel a).
Proof. destruct t; reflexivity. Qed.

(** X16.  However the two uploads of a round are interleaved, each keeps
    its own shape: in the trace of a round that returns, the calls about a
    dataset are either the failed [Open] alone, or the [Open], then reads
    and sends in alternation starting with a read (only a failed read
    lacking its send), then one [Close] as the last of them.  The goroutine
    exits with the stage-wrapped error in the first case; when it exits with
    nil its last call before [Close] was a send. *)
Theorem train_uploads_keep_their_shape a client sched (st : state) r st' t :
  let tr := Train client (config.Trainer_UploadTimeout (config a)) in
  let d := dataset_of t in
  trainerClient a = Some client ->
  fst (handle tr (world st)) = None ->
  train fuel a sched st = (Returned r, st') ->
  exists new x,
    trace st' = trace st ++ new /\
    In (t, x) (exits new) /\
    ((calls_of d new = [Open d (storage a)] /\
      exists e, x = Some (wrapped (stage t) e)) \/
     (exists body,
         calls_of d new = Open d (storage a) :: body ++ [Close d] /\
         transfers d a body /\
         (x = None -> exists m, last_of body = Some (Send m)))).
Proof.
  intros tr d Hc Hopen H.
  destruct (train_spec fuel a client sched st _ st' Hc Hopen H)
    as (og & evs & st2 & HE & HT & _ & HO). fold tr in HE, HT.
  destruct og as [kept | msg | ]; [| contradiction | destruct HO; discriminate].
  destruct HO as (_ & _ & _ & HR).
  assert (Hg : forall t0,
             goroutine_calls (fun c => owned (dataset_of t0) c = true)
                             (pick t0 (uploads fuel a))).
  { intros t0. rewrite pick_uploads. apply train_go_owned. }
  destruct (errgroup_Wait_projection _ _ _ _ _ _ Hg HE) as (evs' & HT' & HP).
  assert (evs' = evs) as ->.
  { simpl in HT'. rewrite HT, <- app_assoc in HT'. simpl in HT'.
    apply app_inv_head in HT'. inversion HT'. reflexivity. }
  specialize (HP t). rewrite pick_uploads in HP. destruct HP as (x & Hin & Hb).
  apply branch_train_go in Hb. fold d in Hb.
  assert (Hnew : exists rest,
             trace st' = trace st ++ (EvCall tr :: evs) ++ rest /\
             calls_of d rest = [] /\ exits rest = []).
  { destruct kept as [e |]; destruct HR as [_ ->].
    - exists [EvCall cancel]. simpl. rewrite HT, <- app_assoc.
      repeat split.
    - exists [EvCall CloseAndRecv; EvCall cancel]. simpl.
      rewrite HT, <- !app_assoc. repeat split. }
  destruct Hnew as (rest & Hnew & Hcr & Her).
  exists ((EvCall tr :: evs) ++ rest), x. split; [exact Hnew |].
  rewrite exits_app, Her, app_nil_r, calls_of_app, Hcr, app_nil_r.
  cbn [exits calls_of owned owner tr]. auto.
Qed.

End RoundProjection.

(** ** The two uploads do not interfere *)

Lemma two_exits {X : Type} (l : list (task * X)) (x1 x2 : X) :
  Permutation (map fst l) [GoDownload; GoNetworkTopology] ->
  In (GoDownload, x1) l -> In (GoNetworkTopology, x2) l ->
  l = [(GoDownload, x1); (GoNetworkTopology, x2)] \/
  l = [(GoNetworkTopology, x2); (GoDownload, x1)].
Proof.
  intros HP H1 H2. apply Permutation_sym, Permutation_length_2_inv in HP.
  destruct l as [| [t1 y1] [| [t2 y2] [| ? ?]]]; simpl in HP;
    destruct HP as [HP | HP]; try discriminate; inversion HP; subst.
  - left. destruct H1 as [H1 | [H1 | []]]; inversion H1; subst.
    destruct H2 as [H2 | [H2 | []]]; inversion H2; subst. reflexivity.
  - right. destruct H1 as [H1 | [H1 | []]]; inversion H1; subst.
    destruct H2 as [H2 | [H2 | []]]; inversion H2; subst. reflexivity.
Qed.

Lemma exits_calls (cs : list call) : exits (map EvCall cs) = [].
Proof. induction cs; simpl; auto. Qed.

Section Independence.

Context {C : Collaborators}.
Variable same : dataset -> World -> World -> Prop.
Hypothesis Hind : independent same.

Lemma exec_solo {A : Type} (p : prog A) : forall st : state,
  exec p st =
  (fst (fst (solo p (world st))),
   {| world := snd (solo p (world st)); chans := chans st;
      trace := trace st ++ map EvCall (snd (fst (solo p (world st)))) |}).
Proof.
  induction p as [a | | c k IH]; intros st.
  - simpl. rewrite app_nil_r. destruct st; reflexivity.
  - simpl. rewrite app_nil_r. destruct st; reflexivity.
  - rewrite exec_Call, IH. unfold after. cbn [world chans trace solo].
    destruct (handle c (world st)) as [x w']. cbn [fst snd].
    destruct (solo (k x) w') as [[o cs] w'']. cbn [fst snd map].
    rewrite <- app_assoc. reflexivity.
Qed.

Lemma solo_same {A : Type} (p : prog A) (d : dataset) :
  calls_satisfy (fun c => owned d c = true) p ->
  forall w w', same d w w' ->
    fst (solo p w) = fst (solo p w') /\ same d (snd (solo p w)) (snd (solo p w')).
Proof.
  induction p as [a | | c k IH]; intros HP w w' Hs; simpl.
  - auto.
  - auto.
  - destruct HP as [Hc Hk].
    destruct (same_answer same Hind d c w w' Hc Hs) as [Hx Hw].
    destruct (handle c w) as [x w1]. destruct (handle c w') as [x' w1'].
    simpl in Hx, Hw. subst x'.
    destruct (IH x (Hk x) w1 w1' Hw) as [H1 H2].
    destruct (solo (k x) w1) as [[o cs] w2].
    destruct (solo (k x) w1') as [[o' cs'] w2'].
    simpl in *. inversion H1; subst. auto.
Qed.

Lemma solo_other {A : Type} (p : prog A) (d d' : dataset) :
  calls_satisfy (fun c => owned d' c = true) p -> d <> d' ->
  forall w, same d (snd (solo p w)) w.
Proof.
  intros HP Hne. induction p as [a | | c k IH]; intros w; simpl.
  - apply (same_refl same Hind).
  - apply (same_refl same Hind).
  - destruct HP as [Hc Hk].
    pose proof (other_untouched same Hind d d' c w Hc Hne) as Hw.
    destruct (handle c w) as [x w1]. simpl in Hw.
    pose proof (IH x (Hk x) w1) as H1.
    destruct (solo (k x) w1) as [[o cs] w2]. simpl in *.
    eapply (same_trans same Hind); eauto.
Qed.

Lemma solo_calls {A : Type} (P : call -> Prop) (p : prog A) :
  calls_satisfy P p -> forall w, Forall P (snd (fst (solo p w))).
Proof.
  induction p as [a | | c k IH]; intros HP w; simpl.
  - constructor.
  - constructor.
  - destruct HP as [Hc Hk]. destruct (handle c w) as [x w1].
    pose proof (IH x (Hk x) w1) as H1.
    destruct (solo (k x) w1) as [[o cs] w2]. simpl in *. constructor; auto.
Qed.

Lemma solo_of_calls (g : goroutine) (P : call -> Prop) w r cs :
  goroutine_calls P g -> solo_of g w r cs -> Forall P cs.
Proof.
  destruct g as [p |]; simpl; intros Hg H; [| subst; constructor].
  pose proof (solo_calls P p Hg w) as HF. rewrite H in HF. exact HF.
Qed.

Lemma solo_of_same (g : goroutine) (d : dataset) w w' r cs :
  goroutine_calls (fun c => owned d c = true) g ->
  same d w' w -> solo_of g w r cs -> solo_of g w' r cs.
Proof.
  destruct g as [p |]; simpl; auto.
  intros Hg Hs H. destruct (solo_same p d Hg w' w Hs) as [H1 _].
  rewrite H1. exact H.
Qed.

Lemma finish_solo t g kept (st : state) r cs :
  goroutine_calls (fun c => owned (dataset_of t) c = true) g ->
  solo_of g (world st) r cs ->
  exists k st',
    finish t g kept st = (Returned k, st') /\
    trace st' =
    trace st ++ map EvCall cs ++
    match g with Running _ => [EvGoExit t r] | Exited => [] end /\
    forall d, d <> dataset_of t -> same d (world st') (world st).
Proof.
  intros Hg Hs. destruct g as [p |]; simpl in *.
  - unfold bind. rewrite exec_solo. rewrite Hs. cbn [fst snd log ret emit trace world].
    eexists. eexists. split; [reflexivity |]. unfold emit. cbn [trace world].
    rewrite <- app_assoc. split; [reflexivity |].
    intros d Hne. eapply solo_other; eauto.
  - subst cs. eexists. eexists. split; [reflexivity |]. rewrite app_nil_r.
    split; [reflexivity |]. intros d _. apply (same_refl same Hind).
Qed.

(** Under every schedule [Wait] returns, and each goroutine has made the
    calls and exited with the value of its run alone. *)
Lemma errgroup_Wait_solo sched : forall g1 g2 kept (st : state) r1 cs1 r2 cs2,
  goroutine_calls (fun c => owned Download c = true) g1 ->
  goroutine_calls (fun c => owned NetworkTopology c = true) g2 ->
  solo_of g1 (world st) r1 cs1 ->
  solo_of g2 (world st) r2 cs2 ->
  exists r st' evs,
    errgroup_Wait sched (g1, g2) kept st = (Returned r, st') /\
    trace st' = trace st ++ evs /\
    calls_of Download evs = cs1 /\
    calls_of NetworkTopology evs = cs2 /\
    (g1 <> Exited -> In (GoDownload, r1) (exits evs)) /\
    (g2 <> Exited -> In (GoNetworkTopology, r2) (exits evs)).
Proof.
  induction sched as [| t sched IH]; intros g1 g2 kept st r1 cs1 r2 cs2 G1 G2 S1 S2.
  - rewrite errgroup_Wait_nil. cbn [fst snd]. unfold bind.
    destruct (finish_solo GoDownload g1 kept st r1 cs1 G1 S1)
      as (k1 & st1 & E1 & T1 & W1).
    rewrite E1.
    assert (S2' : solo_of g2 (world st1) r2 cs2).
    { eapply solo_of_same; [exact G2 | | exact S2]. apply W1. discriminate. }
    destruct (finish_solo GoNetworkTopology g2 k1 st1 r2 cs2 G2 S2')
      as (k2 & st2 & E2 & T2 & W2).
    rewrite E2. eexists. eexists. eexists. split; [reflexivity |].
    rewrite T2, T1, <- !app_assoc. split; [reflexivity |].
    pose proof (solo_of_calls _ _ _ _ _ G1 S1) as F1.
    pose proof (solo_of_calls _ _ _ _ _ G2 S2) as F2.
    rewrite !calls_of_app, !exits_app.
    rewrite (calls_of_owned _ _ F1), (calls_of_owned _ _ F2).
    rewrite (calls_of_other NetworkTopology Download cs1 F1) by discriminate.
    rewrite (calls_of_other Download NetworkTopology cs2 F2) by discriminate.
    rewrite !exits_calls.
    destruct g1 as [p1 |], g2 as [p2 |]; simpl; rewrite ?app_nil_r;
      repeat split; try reflexivity; intros Hne; try contradiction;
      simpl; auto.
  - destruct (running (g1, g2)) as [| t0 l0] eqn:Erun.
    { assert (g1 = Exited /\ g2 = Exited) as [-> ->].
      { destruct g1, g2; try discriminate; auto. }
      simpl in S1, S2. subst. rewrite errgroup_Wait_exited.
      exists kept, st, []. rewrite app_nil_r.
      repeat split; auto; intros H; contradiction. }
    rewrite errgroup_Wait_cons by (rewrite Erun; discriminate).
    clear Erun t0 l0. destruct t; cbn [pick put fst snd].
    + (* the download goroutine takes a step *)
      destruct g1 as [[r0 | | c k] |].
      * simpl in S1. inversion S1; subst r0 cs1. unfold bind, log.
        destruct (IH Exited g2 (errOnce kept r1) (emit (EvGoExit GoDownload r1) st)
                     r1 [] r2 cs2 I G2 eq_refl S2)
          as (r & st' & evs & HE & HT & H1 & H2 & _ & H4).
        exists r, st', (EvGoExit GoDownload r1 :: evs).
        split; [exact HE |]. simpl in HT. rewrite HT, <- app_assoc.
        split; [reflexivity |]. simpl. repeat split; auto.
      * simpl in S1. discriminate.
      * destruct G1 as [Hc Hk]. unfold bind. rewrite call_run.
        assert (S1' : solo_of (Running (k (fst (handle c (world st)))))
                              (world (after c st)) r1 (tl cs1) /\
                      cs1 = c :: tl cs1).
        { simpl in S1 |- *. destruct (handle c (world st)) as [x w1].
          simpl. destruct (solo (k x) w1) as [[o cs'] w2]. simpl in *.
          inversion S1; subst. auto. }
        destruct S1' as [S1' Hcs1].
        assert (S2' : solo_of g2 (world (after c st)) r2 cs2).
        { eapply solo_of_same; [exact G2 | | exact S2]. simpl.
          apply (other_untouched same Hind NetworkTopology Download c _ Hc).
          discriminate. }
        destruct (IH (Running (k (fst (handle c (world st))))) g2 kept
                     (after c st) r1 (tl cs1) r2 cs2 (Hk _) G2 S1' S2')
          as (r & st' & evs & HE & HT & H1 & H2 & H3 & H4).
        exists r, st', (EvCall c :: evs).
        split; [exact HE |]. simpl in HT. rewrite HT, <- app_assoc.
        split; [reflexivity |]. simpl. rewrite Hc.
        rewrite (owned_other NetworkTopology Download c Hc) by discriminate.
        rewrite H1. repeat split; auto. intros _. apply H3. discriminate.
      * destruct (IH Exited g2 kept st r1 cs1 r2 cs2 G1 G2 S1 S2)
          as (r & st' & evs & HE & HT & H1 & H2 & H3 & H4).
        exists r, st', evs. repeat split; auto.
    + (* the network topology goroutine takes a step *)
      destruct g2 as [[r0 | | c k] |].
      * simpl in S2. inversion S2; subst r0 cs2. unfold bind, log.
        destruct (IH g1 Exited (errOnce kept r2)
                     (emit (EvGoExit GoNetworkTopology r2) st)
                     r1 cs1 r2 [] G1 I S1 eq_refl)
          as (r & st' & evs & HE & HT & H1 & H2 & H3 & _).
        exists r, st', (EvGoExit GoNetworkTopology r2 :: evs).
        split; [exact HE |]. simpl in HT. rewrite HT, <- app_assoc.
        split; [reflexivity |]. simpl. repeat split; auto.
      * simpl in S2. discriminate.
      * destruct G2 as [Hc Hk]. unfold bind. rewrite call_run.
        assert (S2' : solo_of (Running (k (fst (handle c (world st)))))
                              (world (after c st)) r2 (tl cs2) /\
                      cs2 = c :: tl cs2).
        { simpl in S2 |- *. destruct (handle c (world st)) as [x w1].
          simpl. destruct (solo (k x) w1) as [[o cs'] w2]. simpl in *.
          inversion S2; subst. auto. }
        destruct S2' as [S2' Hcs2].
        assert (S1' : solo_of g1 (world (after c st)) r1 cs1).
        { eapply solo_of_same; [exact G1 | | exact S1]. simpl.
          apply (other_untouched same Hind Download NetworkTopology c _ Hc).
          discriminate. }
        destruct (IH g1 (Running (k (fst (handle c (world st))))) kept
                     (after c st) r1 cs1 r2 (tl cs2) G1 (Hk _) S1' S2')
          as (r & st' & evs & HE & HT & H1 & H2 & H3 & H4).
        exists r, st', (EvCall c :: evs).
        split; [exact HE |]. simpl in HT. rewrite HT, <- app_assoc.
        split; [reflexivity |]. simpl. rewrite Hc.
        rewrite (owned_other Download NetworkTopology c Hc) by discriminate.
        rewrite H2. repeat split; auto. intros _. apply H4. discriminate.
      * destruct (IH g1 Exited kept st r1 cs1 r2 cs2 G1 G2 S1 S2)
          as (r & st' & evs & HE & HT & H1 & H2 & H3 & H4).
        exists r, st', evs. repeat split; auto.
Qed.

Variable fuel : nat.

(** A round whose uploads, each run alone from the world the opened stream
    leaves, return: under every schedule the round returns, each upload has
    made the calls of its run alone, in the same order, and has exited with
    the same value. *)
Lemma train_solo a client sched (st : state) r1 cs1 r2 cs2 :
  let tr := Train client (config.Trainer_UploadTimeout (config a)) in
  trainerClient a = Some client ->
  fst (handle tr (world st)) = None ->
  fst (solo (train_go GoDownload fuel a) (world (after tr st))) = (Returned r1, cs1) ->
  fst (solo (train_go GoNetworkTopology fuel a) (world (after tr st)))
  = (Returned r2, cs2) ->
  exists r st' new,
    train fuel a sched st = (Returned r, st') /\
    trace st' = trace st ++ new /\
    calls_of Download new = cs1 /\
    calls_of NetworkTopology new = cs2 /\
    (exits new = [(GoDownload, r1); (GoNetworkTopology, r2)] \/
     exits new = [(GoNetworkTopology, r2); (GoDownload, r1)]) /\
    match first_error (map snd (exits new)) with
    | Some e => r = Some e /\ count (is_call CloseAndRecv) new = 0%nat
    | None =>
        count (is_call CloseAndRecv) new = 1%nat /\
        exists st2,
          errgroup_Wait sched (uploads fuel a) None (after tr st)
          = (Returned None, st2) /\
          r = fst (handle CloseAndRecv (world st2))
    end.
Proof.
  intros tr Hc Hopen S1 S2.
  destruct (errgroup_Wait_solo sched
              (Running (train_go GoDownload fuel a))
              (Running (train_go GoNetworkTopology fuel a))
              None (after tr st) r1 cs1 r2 cs2
              (train_go_owned GoDownload fuel a)
              (train_go_owned GoNetworkTopology fuel a) S1 S2)
    as (kept & st2 & evs & HE & HT & H1 & H2 & H3 & H4).
  fold (uploads fuel a) in HE.
  destruct (errgroup_Wait_spec _ _ _ _ _ _ HE) as (evs' & HT' & _ & HK & HP & _).
  assert (evs' = evs) as -> by (rewrite HT in HT'; eapply app_inv_head; eauto).
  simpl in HK.
  assert (HW : emits within_uploads (errgroup_Wait sched (uploads fuel a) None)).
  { apply emits_errgroup_Wait.
    - intros; split; reflexivity.
    - apply (uploads_within fuel a GoDownload).
    - apply (uploads_within fuel a GoNetworkTopology). }
  destruct (HW _ _ _ HE) as (evs'' & HT'' & HF).
  assert (evs'' = evs) as -> by (rewrite HT in HT''; eapply app_inv_head; eauto).
  assert (H0 : count (is_call CloseAndRecv) evs = 0%nat).
  { apply count_none. eapply Forall_impl; [| exact HF]. intros ev [Hev _]. exact Hev. }
  pose proof (two_exits _ _ _ HP (H3 ltac:(discriminate)) (H4 ltac:(discriminate)))
    as Hex.
  rewrite (train_run fuel a client sched st Hc Hopen). fold tr. rewrite HE.
  simpl in HT.
  destruct kept as [e |].
  - exists (Some e), (after cancel st2), (EvCall tr :: evs ++ [EvCall cancel]).
    split; [reflexivity |]. simpl. rewrite HT, <- !app_assoc. simpl.
    split; [reflexivity |].
    rewrite !calls_of_app, exits_app. simpl. rewrite !app_nil_r.
    split; [exact H1 |]. split; [exact H2 |]. split; [exact Hex |].
    rewrite <- HK. split; [reflexivity |].
    rewrite count_cons, count_app, H0. reflexivity.
  - eexists. exists (after cancel (after CloseAndRecv st2)),
      (EvCall tr :: evs ++ [EvCall CloseAndRecv; EvCall cancel]).
    split; [reflexivity |]. simpl. rewrite HT, <- !app_assoc. simpl.
    split; [reflexivity |].
    rewrite !calls_of_app, exits_app. simpl. rewrite !app_nil_r.
    split; [exact H1 |]. split; [exact H2 |]. split; [exact Hex |].
    rewrite <- HK. rewrite count_cons, count_app, H0.
    split; [reflexivity |]. exists st2. auto.
Qed.

(** X17.  When the collaborators keep the two datasets apart, the two
    uploads of a round do not interfere: if each upload task, run alone
    once the stream is open, returns, then under every schedule the round
    returns, each upload has made exactly the calls of its run alone and in
    the same order (so it has sent the same messages), and has exited with
    the same value.  The stream is finalized once if both are nil, and
    otherwise not at all, the round returning the error that exited first. *)
Theorem train_uploads_do_not_interfere a client sched (st : state) r1 cs1 r2 cs2 :
  let tr := Train client (config.Trainer_UploadTimeout (config a)) in
  trainerClient a = Some client ->
  fst (handle tr (world st)) = None ->
  fst (solo (train_go_download fuel a) (world (after tr st))) = (Returned r1, cs1) ->
  fst (solo (train_go_network_topology fuel a) (world (after tr st)))
  = (Returned r2, cs2) ->
  exists r st' new,
    train fuel a sched st = (Returned r, st') /\
    trace st' = trace st ++ new /\
    calls_of Download new = cs1 /\
    calls_of NetworkTopology new = cs2 /\
    (exits new = [(GoDownload, r1); (GoNetworkTopology, r2)] \/
     exits new = [(GoNetworkTopology, r2); (GoDownload, r1)]) /\
    match first_error (map snd (exits new)) with
    | Some e => r = Some e /\ count (is_call CloseAndRecv) new = 0%nat
    | None =>
        count (is_call CloseAndRecv) new = 1%nat /\
        exists st2,
          errgroup_Wait sched (uploads fuel a) None (after tr st)
          = (Returned None, st2) /\
          r = fst (handle CloseAndRecv (world st2))
    end.
Proof.
  intros tr Hc Hopen S1 S2.
  rewrite train_go_download_eq in S1. rewrite train_go_network_topology_eq in S2.
  exact (train_solo a client sched st r1 cs1 r2 cs2 Hc Hopen S1 S2).
Qed.

End Independence.

(** ** A whole round against the simulated collaborators *)

Section WorldInvariant.

Context {C : Collaborators}.
Variable Inv : World -> Prop.
Hypothesis Hinv : forall c w, Inv w -> Inv (snd (handle c w)).

Lemma exec_inv {A : Type} (p : prog A) : forall (st : state) o st',
  Inv (world st) -> exec p st = (o, st') -> Inv (world st').
Proof.
  induction p as [a | | c k IH]; intros st o st' HI H.
  - inversion H; subst. exact HI.
  - inversion H; subst. exact HI.
  - rewrite exec_Call in H. eapply IH; [| exact H]. simpl. apply Hinv, HI.
Qed.

Lemma finish_inv t g kept (st : state) o st' :
  Inv (world st) -> finish t g kept st = (o, st') -> Inv (world st').
Proof.
  intros HI H. destruct g as [p |]; simpl in H.
  - unfold bind in H. destruct (exec p st) as [[r | msg | ] st1] eqn:E;
      pose proof (exec_inv _ _ _ _ HI E) as H1; inversion H; subst; exact H1.
  - inversion H; subst. exact HI.
Qed.

Lemma errgroup_Wait_inv sched : forall gs kept (st : state) o st',
  Inv (world st) -> errgroup_Wait sched gs kept st = (o, st') -> Inv (world st').
Proof.
  induction sched as [| t sched IH]; intros gs kept st o st' HI H.
  - rewrite errgroup_Wait_nil in H. unfold bind in H.
    destruct (finish GoDownload (fst gs) kept st) as [[k1 | msg | ] st1] eqn:E1;
      pose proof (finish_inv _ _ _ _ _ _ HI E1) as H1.
    + eapply finish_inv; eauto.
    + inversion H; subst. exact H1.
    + inversion H; subst. exact H1.
  - destruct (running gs) as [| t0 l0] eqn:Erun.
    { assert (gs = (Exited, Exited)) as ->.
      { destruct gs as [[p1 |] [p2 |]]; try discriminate; reflexivity. }
      rewrite errgroup_Wait_exited in H. inversion H; subst. exact HI. }
    rewrite errgroup_Wait_cons in H by (rewrite Erun; discriminate).
    destruct (pick t gs) as [[r0 | | c k] |].
    + unfold bind in H. simpl in H. eapply IH; [| exact H]. exact HI.
    + inversion H; subst. exact HI.
    + unfold bind in H. rewrite call_run in H. eapply IH; [| exact H].
      simpl. apply Hinv, HI.
    + eapply IH; eauto.
Qed.

End WorldInvariant.

Lemma sim_quiet_kept (c : call) (w : sim.env) :
  sim.quiet w -> sim.quiet (snd (@handle sim.collaborators c w)).
Proof.
  intros Hq. destruct c; try exact Hq.
  change (sim.quiet (snd (sim.read d len w))). unfold sim.read.
  rewrite Hq. destruct (sim.eof_with_data w).
  - apply sim_quiet_advance, Hq.
  - destruct (sim.unread d w); [exact Hq | apply sim_quiet_advance, Hq].
Qed.

(** The simulated collaborators keep the two datasets apart. *)
Lemma sim_independent : @independent sim.collaborators sim_same.
Proof.
  constructor.
  - intros d w. repeat split.
  - intros d w1 w2 w3 (H1 & H2 & H3) (H4 & H5 & H6). repeat split; congruence.
  - intros d c w w' Hc (Hu & He & Hf).
    destruct c; try discriminate; cbn [handle sim.collaborators sim.answer fst snd].
    + rewrite Hf. split; [reflexivity | repeat split; assumption].
    + rewrite Hf. split; [reflexivity | repeat split; assumption].
    + assert (d0 = d) as ->.
      { unfold owned in Hc. simpl in Hc. destruct d, d0; try discriminate; reflexivity. }
      unfold sim.read. rewrite Hf, Hu, He.
      destruct (sim.fail w' (Read d len)).
      { split; [reflexivity |]. unfold sim_same; cbn [fst snd]; repeat split; congruence. }
      destruct (sim.eof_with_data w') eqn:Ee.
      * split; [reflexivity |]. unfold sim_same; cbn [fst snd].
        destruct d; simpl in *; repeat split; try assumption; try congruence.
      * destruct (sim.unread d w') eqn:Eu.
        { split; [reflexivity |]. unfold sim_same; cbn [fst snd]; repeat split; congruence. }
        split; [reflexivity |]. unfold sim_same; cbn [fst snd].
        destruct d; simpl in *; repeat split; try assumption; try congruence.
    + rewrite Hf. split; [reflexivity | repeat split; assumption].
  - intros d d' c w Hc Hne.
    destruct c; try discriminate; cbn [handle sim.collaborators sim.answer fst snd];
      try (repeat split; reflexivity).
    assert (d0 = d') as ->.
    { unfold owned in Hc. simpl in Hc. destruct d', d0; try discriminate; reflexivity. }
    unfold sim.read. destruct (sim.fail w (Read d' len)); [repeat split |].
    destruct (sim.eof_with_data w).
    + destruct d, d'; try contradiction; repeat split.
    + destruct (sim.unread d' w); [repeat split |].
      destruct d, d'; try contradiction; repeat split.
Qed.

Lemma concat_chunks (size : N) (k : nat) : forall data : list byte,
  List.concat (chunks size k data) = data.
Proof.
  induction k as [| k IH]; intros data.
  - destruct data; simpl; [reflexivity | rewrite app_nil_r; reflexivity].
  - cbn [chunks List.concat]. rewrite IH. apply take_drop.
Qed.

Lemma concat_sim_expected (eager : bool) (k : nat) (data : list byte) :
  List.concat (sim_expected eager k data) = data.
Proof.
  unfold sim_expected. destruct eager.
  - destruct data; [reflexivity | apply concat_chunks].
  - rewrite concat_app, concat_chunks. simpl. apply app_nil_r.
Qed.

Section SimulatedRound.

#[local] Existing Instance sim.collaborators.

(** An upload run alone against a storage that answers every call: it
    returns nil and has sent the dataset chunk by chunk. *)
Lemma sim_solo_train_go (t : task) (fuel : nat) (a : announcer) (k : nat) (r : N)
      (w : sim.env) :
  sim.quiet w ->
  N.of_nat (List.length (sim.unread (dataset_of t) w))
  = (N.of_nat k * UploadBufferSize + r)%N ->
  (r < UploadBufferSize)%N ->
  (k + 2 <= fuel)%nat ->
  exists cs,
    fst (solo (train_go t fuel a) w) = (Returned None, cs) /\
    sends (map EvCall cs) =
    map (chunk_request (dataset_of t) a)
        (sim_expected (sim.eof_with_data w) k (sim.unread (dataset_of t) w)).
Proof.
  intros Hq Hlen Hr Hfuel. set (d := dataset_of t) in *.
  pose proof (exec_solo (train_go t fuel a) (sim.init w)) as HS.
  assert (HE : exists st',
             exec (train_go t fuel a) (sim.init w) = (Returned None, st') /\
             sends (trace st') =
             map (chunk_request d a)
                 (sim_expected (sim.eof_with_data w) k (sim.unread d w))).
  { unfold train_go. fold d. rewrite exec_pbind. unfold bind.
    assert (Hopen : fst (@handle sim.collaborators (Open d (storage a))
                                 (world (sim.init w))) = None).
    { change (sim.fail w (Open d (storage a)) = None). apply Hq. }
    rewrite (@exec_upload_opened sim.collaborators) by exact Hopen.
    set (st0 := @after sim.collaborators (Open d (storage a)) (sim.init w)).
    assert (Hw0 : world st0 = w) by reflexivity.
    assert (Ht0 : sends (trace st0) = []) by reflexivity.
    unfold sim_expected. destruct (sim.eof_with_data w) eqn:He.
    - destruct (sim_loop_eof_with_data d a k (sim.unread d w) r fuel st0)
        as (st' & HX & HT); try (rewrite Hw0); auto.
      rewrite HX. cbn [exec ret]. eexists. split; [reflexivity |].
      cbn [after trace]. rewrite sends_app, HT, Ht0. cbn [sends].
      rewrite app_nil_r. reflexivity.
    - destruct (sim_loop_separate_eof d a k (sim.unread d w) r fuel st0)
        as (st' & HX & HT); try (rewrite Hw0); auto.
      rewrite HX. cbn [exec ret]. eexists. split; [reflexivity |].
      cbn [after trace]. rewrite sends_app, HT, Ht0. cbn [sends].
      rewrite app_nil_r. reflexivity. }
  destruct HE as (st' & HX & HT). rewrite HX in HS.
  destruct (solo (train_go t fuel a) (world (sim.init w))) as [[o cs] w'] eqn:Es.
  change (world (sim.init w)) with w in Es. rewrite Es.
  cbn [fst snd] in HS. inversion HS as [[Ho Hst]]. subst o.
  exists cs. split; [reflexivity |]. rewrite <- HT, Hst. reflexivity.
Qed.

(** X18.  A whole round against a storage and a trainer that answer every
    call: whatever the sizes of the two datasets and whichever way the
    scheduler interleaves the two uploads, the round returns nil, the
    trainer has received each dataset complete and in order, in chunks of
    [UploadBufferSize] bytes (closed by an empty message when the storage
    reports end-of-stream on a read of its own), and the stream has been
    finalized once. *)
Theorem train_delivers_both_datasets
        (fuel : nat) (a : announcer) (client : nat) (sched : list task)
        (st : state) (k1 k2 : nat) (r1 r2 : N) :
  trainerClient a = Some client ->
  sim.quiet (world st) ->
  N.of_nat (List.length (sim.download (world st)))
  = (N.of_nat k1 * UploadBufferSize + r1)%N ->
  (r1 < UploadBufferSize)%N ->
  N.of_nat (List.length (sim.network_topology (world st)))
  = (N.of_nat k2 * UploadBufferSize + r2)%N ->
  (r2 < UploadBufferSize)%N ->
  (k1 + 2 <= fuel)%nat ->
  (k2 + 2 <= fuel)%nat ->
  exists st' new,
    train fuel a sched st = (Returned None, st') /\
    trace st' = trace st ++ new /\
    payloads_of Download new
    = sim_expected (sim.eof_with_data (world st)) k1 (sim.download (world st)) /\
    payloads_of NetworkTopology new
    = sim_expected (sim.eof_with_data (world st)) k2
                   (sim.network_topology (world st)) /\
    List.concat (payloads_of Download new) = sim.download (world st) /\
    List.concat (payloads_of NetworkTopology new) = sim.network_topology (world st) /\
    count (is_call CloseAndRecv) new = 1%nat.
Proof.
  intros Hc Hq Hl1 Hr1 Hl2 Hr2 Hf1 Hf2.
  set (tr := Train client (config.Trainer_UploadTimeout (config a))).
  assert (Hw : world (after tr st) = world st) by reflexivity.
  assert (Hopen : fst (handle tr (world st)) = None).
  { change (sim.fail (world st) tr = None). apply Hq. }
  destruct (sim_solo_train_go GoDownload fuel a k1 r1 (world st) Hq Hl1 Hr1 Hf1)
    as (cs1 & S1 & P1).
  destruct (sim_solo_train_go GoNetworkTopology fuel a k2 r2 (world st) Hq Hl2 Hr2 Hf2)
    as (cs2 & S2 & P2).
  rewrite <- Hw in S1, S2.
  destruct (@train_solo sim.collaborators sim_same sim_independent fuel a client sched st
                       None cs1 None cs2 Hc Hopen S1 S2)
    as (r & st' & new & HE & HT & C1 & C2 & HX & HF).
  assert (HN : first_error (map snd (exits new)) = None)
    by (destruct HX as [-> | ->]; reflexivity).
  rewrite HN in HF. destruct HF as (Hcount & st2 & HW & Hr).
  assert (Hq2 : sim.quiet (world st2)).
  { eapply (@errgroup_Wait_inv sim.collaborators sim.quiet sim_quiet_kept); [| exact HW].
    exact Hq. }
  assert (r = None) as ->.
  { rewrite Hr. change (sim.fail (world st2) CloseAndRecv = None). apply Hq2. }
  assert (D1 : payloads_of Download new
               = sim_expected (sim.eof_with_data (world st)) k1
                              (sim.download (world st))).
  { unfold payloads_of. rewrite C1, P1. apply Dataset_chunk_request. }
  assert (D2 : payloads_of NetworkTopology new
               = sim_expected (sim.eof_with_data (world st)) k2
                              (sim.network_topology (world st))).
  { unfold payloads_of. rewrite C2, P2. apply Dataset_chunk_request. }
  exists st', new. split; [exact HE |]. split; [exact HT |].
  split; [exact D1 |]. split; [exact D2 |].
  rewrite D1, D2, !concat_sim_expected. repeat split. exact Hcount.
Qed.

End SimulatedRound.

(** ** The further properties on concrete runs *)

Lemma announceToTrainer_alphabet_witness :
  scenario.looped = (fst scenario.looped, snd scenario.looped) /\
  exists new,
    trace (snd scenario.looped) = trace (run.serving sim.no_failure) ++ new /\
    Forall (loop_event sim.ann) new /\
    count is_registration new = 0%nat /\
    count is_keepalive new = 0%nat.
Proof.
  split; [reflexivity |].
  apply (@announceToTrainer_alphabet sim.collaborators 3 sim.ann
           (TickFires [] :: run.offers) (run.serving sim.no_failure)
           (fst scenario.looped) (snd scenario.looped)).
  reflexivity.
Defined.

Lemma Serve_without_trainer_witness :
  trainerClient scenario.manager_only = None /\
  Serve 3 scenario.manager_only [TickFires []] (run.serving sim.no_failure) =
  (Returned None,
   emit (keepalive scenario.manager_only)
        (emit (EvInfo "announce scheduler to manager")
              (run.serving sim.no_failure))).
Proof.
  split; [reflexivity |].
  apply (@Serve_without_trainer sim.collaborators 3 scenario.manager_only
           [TickFires []] (run.serving sim.no_failure)).
  reflexivity.
Defined.

Lemma Serve_starts_keepalive_once_witness :
  run.served = (fst run.served, snd run.served) /\
  exists later,
    trace (snd run.served) =
    trace (run.serving sim.no_failure) ++
    EvInfo "announce scheduler to manager" :: keepalive sim.ann :: later /\
    count is_keepalive later = 0%nat /\
    keepalive sim.ann =
    EvGoKeepAlive (managerClient sim.ann)
      (config.Manager_KeepAlive_Interval (config sim.ann))
      {| managerv2.ka_SourceType := managerv2.SourceType_SCHEDULER_SOURCE;
         managerv2.ka_Hostname := config.Server_Host (config sim.ann);
         managerv2.ka_Ip := config.Server_AdvertiseIP (config sim.ann);
         managerv2.ka_ClusterId :=
           uint64 (config.Manager_SchedulerClusterID (config sim.ann)) |}
      (done sim.ann).
Proof.
  split; [reflexivity |].
  apply (@Serve_starts_keepalive_once sim.collaborators 3 sim.ann
           (TickFires [] :: run.offers) (run.serving sim.no_failure)
           (fst run.served) (snd run.served)).
  reflexivity.
Defined.

Lemma Serve_messages_are_stamped_witness :
  run.served = (fst run.served, snd run.served) /\
  exists new,
    trace (snd run.served) = trace (run.serving sim.no_failure) ++ new /\
    Forall (stamped sim.ann) (sends new).
Proof.
  split; [reflexivity |].
  apply (@Serve_messages_are_stamped sim.collaborators 3 sim.ann
           (TickFires [] :: run.offers) (run.serving sim.no_failure)
           (fst run.served) (snd run.served)).
  reflexivity.
Defined.

Lemma train_cancels_last_witness :
  run.both_fail =
  (Returned (Some (wrapped "upload network topology" (opaque "permission denied"))),
   snd run.both_fail) /\
  exists evs,
    count (is_call cancel) evs = 0%nat /\
    trace (snd run.both_fail) =
    trace (run.serving sim.uploads_fail) ++ evs ++ [EvCall cancel].
Proof.
  split; [reflexivity |].
  apply (@train_cancels_last sim.collaborators 2 sim.ann
           [GoNetworkTopology; GoNetworkTopology; GoDownload]
           (run.serving sim.uploads_fail)
           (Returned (Some (wrapped "upload network topology"
                                    (opaque "permission denied"))))
           (snd run.both_fail)).
  reflexivity.
Defined.

Lemma train_stream_open_failure_witness :
  trainerClient sim.ann = Some 0%nat /\
  fst (@handle sim.collaborators
         (Train 0%nat (config.Trainer_UploadTimeout (config sim.ann)))
         (world (run.serving scenario.train_fails)))
  = Some (opaque "trainer unreachable") /\
  scenario.refused =
  (Returned (Some (opaque "trainer unreachable")),
   after cancel
     (after (Train 0%nat (config.Trainer_UploadTimeout (config sim.ann)))
            (run.serving scenario.train_fails))).
Proof.
  split; [reflexivity |]. split; [reflexivity |].
  apply (@train_stream_open_failure sim.collaborators 3 sim.ann 0%nat
           [GoDownload] (run.serving scenario.train_fails)
           (opaque "trainer unreachable")); reflexivity.
Defined.

Lemma upload_task_open_failure_witness :
  fst (@handle sim.collaborators (Open NetworkTopology (storage sim.ann))
         (world (run.serving sim.uploads_fail)))
  = Some (opaque "permission denied") /\
  exec (upload_task NetworkTopology 3 sim.ann) (run.serving sim.uploads_fail) =
  (Returned (Some (opaque "permission denied")),
   after (Open NetworkTopology (storage sim.ann)) (run.serving sim.uploads_fail)).
Proof.
  split; [reflexivity |].
  apply (@upload_task_open_failure sim.collaborators NetworkTopology 3 sim.ann
           (run.serving sim.uploads_fail) (opaque "permission denied")).
  reflexivity.
Defined.

Lemma upload_read_failure_drops_bytes_witness :
  fst (@handle sim.collaborators (Read Download UploadBufferSize)
         (world (run.serving sim.uploads_fail)))
  = ([], Some (opaque "disk failure")) /\
  opaque "disk failure" <> io_EOF /\
  exec (upload_task_loop Download 2 sim.ann) (run.serving sim.uploads_fail) =
  (Returned (Some (opaque "disk failure")),
   after (Read Download UploadBufferSize) (run.serving sim.uploads_fail)) /\
  sends (trace (after (Read Download UploadBufferSize)
                      (run.serving sim.uploads_fail)))
  = sends (trace (run.serving sim.uploads_fail)).
Proof.
  split; [reflexivity |]. split; [discriminate |].
  apply (@upload_read_failure_drops_bytes sim.collaborators Download sim.ann 1%nat
           (run.serving sim.uploads_fail) [] (opaque "disk failure"));
    [reflexivity | discriminate].
Defined.

Lemma upload_send_failure_stops_witness :
  fst (@handle sim.collaborators (Read Download UploadBufferSize)
         (world (run.serving sim.send_fails)))
  = ([x01], None) /\
  is_failure None = false /\
  fst (@handle sim.collaborators (Send (chunk_request Download sim.ann [x01]))
         (world (after (Read Download UploadBufferSize)
                       (run.serving sim.send_fails))))
  = Some (opaque "stream reset") /\
  exec (upload_task_loop Download 3 sim.ann) (run.serving sim.send_fails) =
  (Returned (Some (opaque "stream reset")),
   after (Send (chunk_request Download sim.ann [x01]))
         (after (Read Download UploadBufferSize) (run.serving sim.send_fails))).
Proof.
  split; [reflexivity |]. split; [reflexivity |]. split; [reflexivity |].
  apply (@upload_send_failure_stops sim.collaborators Download sim.ann 2%nat
           (run.serving sim.send_fails) [x01] None (opaque "stream reset"));
    reflexivity.
Defined.

Lemma upload_task_alternates_witness :
  fst (@handle sim.collaborators (Open Download (storage sim.ann))
         (world (run.serving sim.no_failure))) = None /\
  scenario.uploaded = (Returned None, snd scenario.uploaded) /\
  exists body,
    trace (snd scenario.uploaded) =
    trace (run.serving sim.no_failure) ++
    EvCall (Open Download (storage sim.ann)) ::
    map EvCall body ++ [EvCall (Close Download)] /\
    transfers Download sim.ann body /\
    (1 <= count is_read (map EvCall body))%nat /\
    (count is_send (map EvCall body) <= count is_read (map EvCall body)
     <= count is_send (map EvCall body) + 1)%nat /\
    (@None error = None ->
     count is_send (map EvCall body) = count is_read (map EvCall body)).
Proof.
  split; [reflexivity |]. split; [reflexivity |].
  apply (@upload_task_alternates sim.collaborators Download 3 sim.ann
           (run.serving sim.no_failure) None (snd scenario.uploaded));
    reflexivity.
Defined.

Lemma Serve_blocks_until_Stop_witness :
  trainerClient sim.ann = Some 0%nat /\
  is_closed (done sim.ann) (run.serving sim.no_failure) = false /\
  forallb (fun ev => negb (is_stop_called ev))
          [TickFires []; TickFires [GoDownload]; DoneChosen] = true /\
  Serve 3 sim.ann [TickFires []; TickFires [GoDownload]; DoneChosen]
        (run.serving sim.no_failure)
  <> (Returned None, run.serving sim.no_failure).
Proof.
  split; [reflexivity |]. split; [reflexivity |]. split; [reflexivity |].
  apply (@Serve_blocks_until_Stop sim.collaborators 3 sim.ann 0%nat
           [TickFires []; TickFires [GoDownload]; DoneChosen]
           (run.serving sim.no_failure) None (run.serving sim.no_failure));
    reflexivity.
Defined.


Lemma identity_survives_conversions_witness :
  - 2 ^ 31 <= config.Server_AdvertisePort (config sim.ann) < 2 ^ 31 /\
  0 <= config.Manager_SchedulerClusterID (config sim.ann) < 2 ^ 64 /\
  managerv2.us_Port (registration_request sim.ann) = 8002 /\
  managerv2.us_SchedulerClusterId (registration_request sim.ann) = 1 /\
  (forall d buf_n, trainerv1.ClusterId (chunk_request d sim.ann buf_n) = 1).
Proof.
  assert (Hport : - 2 ^ 31 <= config.Server_AdvertisePort (config sim.ann) < 2 ^ 31)
    by (simpl; lia).
  assert (Hid : 0 <= config.Manager_SchedulerClusterID (config sim.ann) < 2 ^ 64)
    by (simpl; lia).
  split; [exact Hport |]. split; [exact Hid |].
  destruct (identity_survives_conversions sim.ann) as (_ & _ & _ & HP & HI).
  destruct (HI Hid) as (H1 & H2 & _).
  split; [exact (HP Hport) |]. split; [exact H1 | exact H2].
Defined.

Lemma New_builds_the_announcer_witness :
  fst (@handle sim.collaborators
         (UpdateScheduler 0%nat (registration_request sim.ann))
         (world run.boot)) = None /\
  exists st1,
    New sim.cfg 0%nat 0%nat (map WithTrainerClient [7%nat; 0%nat]) run.boot
    = (Returned (Some sim.ann, None), st1) /\
    trace st1 =
    trace run.boot ++
    [EvCall (UpdateScheduler 0%nat (registration_request sim.ann))] /\
    nth_error (chans run.boot) (done sim.ann) = None /\
    nth_error (chans st1) (done sim.ann) = Some false /\
    forall c b, nth_error (chans run.boot) c = Some b ->
                nth_error (chans st1) c = Some b.
Proof.
  split; [reflexivity |].
  apply (@New_builds_the_announcer sim.collaborators sim.cfg 0%nat 0%nat
           [7%nat; 0%nat] run.boot).
  reflexivity.
Defined.

Lemma Stop_is_per_announcer_witness :
  scenario.first_built = (Returned (Some sim.ann, None), snd scenario.first_built) /\
  scenario.second_built
  = (Returned (Some scenario.second_ann, None), snd scenario.second_built) /\
  done sim.ann <> done scenario.second_ann /\
  exists st3,
    Stop sim.ann (snd scenario.second_built) = (Returned None, st3) /\
    is_closed (done sim.ann) st3 = true /\
    is_closed (done scenario.second_ann) st3 = false.
Proof.
  split; [reflexivity |]. split; [reflexivity |].
  apply (@Stop_is_per_announcer sim.collaborators
           sim.cfg 0%nat 0%nat [0%nat] sim.cfg 0%nat 0%nat []
           run.boot sim.ann scenario.second_ann
           (snd scenario.first_built) (snd scenario.second_built));
    reflexivity.
Defined.

Lemma train_uploads_keep_their_shape_witness :
  trainerClient sim.ann = Some 0%nat /\
  fst (@handle sim.collaborators
         (Train 0%nat (config.Trainer_UploadTimeout (config sim.ann)))
         (world (run.serving sim.uploads_fail))) = None /\
  run.both_fail =
  (Returned (Some (wrapped "upload network topology" (opaque "permission denied"))),
   snd run.both_fail) /\
  exists new x,
    trace (snd run.both_fail) = trace (run.serving sim.uploads_fail) ++ new /\
    In (GoDownload, x) (exits new) /\
    ((calls_of Download new = [Open Download (storage sim.ann)] /\
      exists e, x = Some (wrapped (stage GoDownload) e)) \/
     (exists body,
         calls_of Download new
         = Open Download (storage sim.ann) :: body ++ [Close Download] /\
         transfers Download sim.ann body /\
         (x = None -> exists m, last_of body = Some (Send m)))).
Proof.
  split; [reflexivity |]. split; [reflexivity |]. split; [reflexivity |].
  apply (@train_uploads_keep_their_shape sim.collaborators 2 sim.ann 0%nat
           [GoNetworkTopology; GoNetworkTopology; GoDownload]
           (run.serving sim.uploads_fail)
           (Some (wrapped "upload network topology" (opaque "permission denied")))
           (snd run.both_fail) GoDownload); reflexivity.
Defined.

Lemma train_uploads_do_not_interfere_witness :
  @independent sim.collaborators sim_same /\
  trainerClient sim.ann = Some 0%nat /\
  fst (@handle sim.collaborators
         (Train 0%nat (config.Trainer_UploadTimeout (config sim.ann)))
         (world (run.serving sim.no_failure))) = None /\
  fst (@solo sim.collaborators _ (train_go_download 3 sim.ann)
         (world (after (Train 0%nat (config.Trainer_UploadTimeout (config sim.ann)))
                       (run.serving sim.no_failure))))
  = (Returned None, scenario.alone GoDownload) /\
  fst (@solo sim.collaborators _ (train_go_network_topology 3 sim.ann)
         (world (after (Train 0%nat (config.Trainer_UploadTimeout (config sim.ann)))
                       (run.serving sim.no_failure))))
  = (Returned None, scenario.alone GoNetworkTopology) /\
  exists r st' new,
    train 3 sim.ann
          [GoNetworkTopology; GoDownload; GoDownload; GoNetworkTopology]
          (run.serving sim.no_failure) = (Returned r, st') /\
    trace st' = trace (run.serving sim.no_failure) ++ new /\
    calls_of Download new = scenario.alone GoDownload /\
    calls_of NetworkTopology new = scenario.alone GoNetworkTopology /\
    (exits new = [(GoDownload, None); (GoNetworkTopology, None)] \/
     exits new = [(GoNetworkTopology, None); (GoDownload, None)]) /\
    match first_error (map snd (exits new)) with
    | Some e => r = Some e /\ count (is_call CloseAndRecv) new = 0%nat
    | None =>
        count (is_call CloseAndRecv) new = 1%nat /\
        exists st2,
          errgroup_Wait
            [GoNetworkTopology; GoDownload; GoDownload; GoNetworkTopology]
            (uploads 3 sim.ann) None
            (after (Train 0%nat (config.Trainer_UploadTimeout (config sim.ann)))
                   (run.serving sim.no_failure))
          = (Returned None, st2) /\
          r = fst (handle CloseAndRecv (world st2))
    end.
Proof.
  split; [exact sim_independent |].
  split; [reflexivity |]. split; [reflexivity |].
  split; [reflexivity |]. split; [reflexivity |].
  apply (@train_uploads_do_not_interfere sim.collaborators sim_same sim_independent
           3 sim.ann 0%nat
           [GoNetworkTopology; GoDownload; GoDownload; GoNetworkTopology]
           (run.serving sim.no_failure)
           None (scenario.alone GoDownload)
           None (scenario.alone GoNetworkTopology)); reflexivity.
Defined.

Lemma train_delivers_both_datasets_witness :
  trainerClient sim.ann = Some 0%nat /\
  sim.quiet (world (run.serving sim.no_failure)) /\
  N.of_nat (List.length (sim.download (world (run.serving sim.no_failure))))
  = (N.of_nat 0 * UploadBufferSize + 1)%N /\
  (1 < UploadBufferSize)%N /\
  N.of_nat (List.length (sim.network_topology (world (run.serving sim.no_failure))))
  = (N.of_nat 0 * UploadBufferSize + 1)%N /\
  (0 + 2 <= 3)%nat /\
  exists st' new,
    train 3 sim.ann
          [GoNetworkTopology; GoDownload; GoDownload; GoNetworkTopology]
          (run.serving sim.no_failure) = (Returned None, st') /\
    trace st' = trace (run.serving sim.no_failure) ++ new /\
    payloads_of Download new = sim_expected false 0 [x01] /\
    payloads_of NetworkTopology new = sim_expected false 0 [x02] /\
    List.concat (payloads_of Download new) = [x01] /\
    List.concat (payloads_of NetworkTopology new) = [x02] /\
    count (is_call CloseAndRecv) new = 1%nat.
Proof.
  split; [reflexivity |]. split; [intros c; reflexivity |].
  split; [reflexivity |]. split; [reflexivity |]. split; [reflexivity |].
  split; [simpl; lia |].
  apply (train_delivers_both_datasets 3 sim.ann 0%nat
           [GoNetworkTopology; GoDownload; GoDownload; GoNetworkTopology]
           (run.serving sim.no_failure) 0 0 1 1);
    try reflexivity; try (intros c; reflexivity); simpl; lia.
Defined.
